(** * Weighted-Binary-String instance generator: a shallow embedding

    This development embeds [InstanceGenerator/InstanceGenerator.py] in Rocq
    and checks the properties that the specification states about it.

    Conventions of the embedding.
    - Python floats are exact rationals ([Q]); Python and numpy integers are
      unbounded integers ([Z]).  Binary rounding of floats and the width of
      numpy's integer types are outside the model.
    - The pseudo-random generator of numpy is an infinite stream of raw
      integer draws, [rng := nat -> Z].  A computation that draws consumes a
      prefix of the stream, so a property proved for every stream holds for
      every outcome of the random draws.
    - Exceptions and non-termination are explicit: a computation returns
      [Ret a], [Raise e] or [Diverge] (the loop ran out of fuel) together with
      the state it reached.
    - The file system is a finite map from paths to file contents.
    - The command line of [main] is embedded with the [getopt] module and
      the string methods it uses, which are library code modelled after
      their documented behaviour; [int] and [float] of a string are
      parameters.  Of [InstanceGenerator/Run_instance_generator.py] the
      command it builds is embedded; the child process that runs it is not. *)

From Stdlib Require Import ZArith QArith Qround Lqa Lia Ascii.
From stdpp Require Import base list gmap strings pretty.

Set Default Proof Using "Type".

(* ===================================================================== *)
(** * Numbers *)
(* ===================================================================== *)

Module Num.

(** Python's [int(x)] on a float: truncation towards zero. *)
Definition int_of_float (q : Q) : Z := Z.quot (Qnum q) (Zpos (Qden q)).

(** Round half to even, the rounding of Python's [round] and of numpy's
    [rint]. *)
Definition rint (q : Q) : Z :=
  let f := Qfloor q in
  match (q - inject_Z f ?= 1 # 2)%Q with
  | Lt => f
  | Gt => (f + 1)%Z
  | Eq => if Z.even f then f else (f + 1)%Z
  end.

(** [np.round(x, 2)]: scale by 100, round to the nearest integer, scale
    back. *)
Definition round2 (q : Q) : Q := (inject_Z (rint (q * 100)) / 100)%Q.

(** [x > 0] and [x == 0] on array elements. *)
Definition gt0 (q : Q) : bool := negb (Qle_bool q 0).
Definition eq0 (q : Q) : bool := Qeq_bool q 0.


End Num.

(* ===================================================================== *)
(** * Computations with state, exceptions and fuel *)
(* ===================================================================== *)

Inductive exn : Type := ValueError | OSError.

Inductive outcome (A : Type) : Type :=
| Ret (a : A)
| Raise (e : exn)
| Diverge.
Arguments Ret {A} a.
Arguments Raise {A} e.
Arguments Diverge {A}.

Definition M (S A : Type) : Type := S -> outcome A * S.

Definition ret {S A} (a : A) : M S A := fun s => (Ret a, s).
Definition raise {S A} (e : exn) : M S A := fun s => (Raise e, s).
Definition diverge {S A} : M S A := fun s => (Diverge, s).

Definition bind {S A B} (c : M S A) (k : A -> M S B) : M S B :=
  fun s =>
    match c s with
    | (Ret a, s') => k a s'
    | (Raise e, s') => (Raise e, s')
    | (Diverge, s') => (Diverge, s')
    end.

Declare Scope comp_scope.
Delimit Scope comp_scope with comp.
Notation "x <- c ;; k" := (bind c (fun x => k))
  (at level 100, c at next level, right associativity) : comp_scope.
Notation "c ;;; k" := (bind c (fun _ => k))
  (at level 100, right associativity) : comp_scope.
Open Scope comp_scope.

(** Run a computation on one component of a larger state. *)
Definition zoom {S T A} (get : T -> S) (set : S -> T -> T) (c : M S A) : M T A :=
  fun t => let (o, s') := c (get t) in (o, set s' t).

(** [for x in l: body x] *)
Fixpoint for_each {S A} (l : list A) (body : A -> M S unit) : M S unit :=
  match l with
  | [] => ret tt
  | x :: l' => body x ;;; for_each l' body
  end.

(* ===================================================================== *)
(** * numpy: random draws and arrays *)
(* ===================================================================== *)

(** numpy is a library outside the repository.  Its functions are modelled
    after their documented behaviour, on lists; [np.random] draws from the
    stream of raw draws. *)
Module np.

(** The generator state: the raw draws still to come. *)
Definition rng : Type := nat -> Z.

Definition R (A : Type) : Type := M rng A.

(** [n] raw draws, in order. *)
Definition draws (n : nat) : R (list Z) :=
  fun g => (Ret (g <$> seq 0 n), fun k => g (n + k)%nat).

(** One integer of the closed range [lo .. hi] from a raw draw. *)
Definition bounded (lo hi r : Z) : Z := (lo + r mod (hi - lo + 1))%Z.

(** [random_sample]: a raw draw gives 53 random bits, a value of
    [[0, 1)]. *)
Definition random_sample (r : Z) : Q := Qmake (r mod 2 ^ 53) (2 ^ 53).

(** One value of [uniform(low, high)] from a raw draw. *)
Definition uniform1 (low high : Q) (r : Z) : Q :=
  (low + (high - low) * random_sample r)%Q.

(** [np.random.randint(low, high, size)]: integers of [[low, high)].
    An empty request returns before the range is looked at; float bounds
    go through [int]. *)
Definition randint (low high : Q) (size : Z) : R (list Z) :=
  if (size =? 0)%Z then ret []
  else
    let lo := Num.int_of_float low in
    let hi := (Num.int_of_float high - 1)%Z in
    if (hi <? lo)%Z then raise ValueError
    else if (size <? 0)%Z then raise ValueError
    else rs <- draws (Z.to_nat size) ;; ret (bounded lo hi <$> rs).

(** [np.random.uniform(low, high, size)]. *)
Definition uniform (low high : Q) (size : Z) : R (list Q) :=
  if (size <? 0)%Z then raise ValueError
  else rs <- draws (Z.to_nat size) ;; ret (uniform1 low high <$> rs).

(** [np.round(a, 2)] on an array. *)
Definition round (a : list Q) : list Q := Num.round2 <$> a.

(** [np.zeros(length)]. *)
Definition zeros (length : Z) : R (list Q) :=
  if (length <? 0)%Z then raise ValueError
  else ret (replicate (Z.to_nat length) 0%Q).

(** [weights == 0], [mask.any()], [mask.sum()]. *)
Definition eq_zero (a : list Q) : list bool := Num.eq0 <$> a.
Definition any (mask : list bool) : bool := existsb id mask.
Definition sum_mask (mask : list bool) : Z := Z.of_nat (length (filter (fun b => b = true) mask)).

(** [a[mask] = vals]: the selected positions take the values in order. *)
Fixpoint setitem_mask (a : list Q) (mask : list bool) (vals : list Q) : list Q :=
  match a, mask with
  | x :: a', true :: mask' =>
      match vals with
      | v :: vals' => v :: setitem_mask a' mask' vals'
      | [] => x :: setitem_mask a' mask' []
      end
  | x :: a', false :: mask' => x :: setitem_mask a' mask' vals
  | _, _ => a
  end.

(** [a[idx] = vals] with an index array: the shapes must agree, except
    that one value is broadcast to every index. *)
Fixpoint scatter (a : list Q) (idx : list nat) (vals : list Q) : list Q :=
  match idx, vals with
  | i :: idx', v :: vals' => scatter (<[i := v]> a) idx' vals'
  | _, _ => a
  end.

Definition setitem_idx (a : list Q) (idx : list nat) (vals : list Q) : R (list Q) :=
  if decide (length vals = length idx) then ret (scatter a idx vals)
  else match vals with
       | [v] => ret (scatter a idx (replicate (length idx) v))
       | _ => raise ValueError
       end.

(** Python slices [l[:k]] and [l[k:]]; a negative [k] counts from the
    end. *)
Definition slice_to {A} (l : list A) (k : Z) : list A :=
  if (k <? 0)%Z then take (length l - Z.to_nat (- k)) l else take (Z.to_nat k) l.
Definition slice_from {A} (l : list A) (k : Z) : list A :=
  if (k <? 0)%Z then drop (length l - Z.to_nat (- k)) l else drop (Z.to_nat k) l.

(** [np.random.permutation(n)]: a shuffle of [0 .. n-1]; each step draws
    one of the remaining indices. *)
Fixpoint shuffle (n : nat) (pool : list nat) : R (list nat) :=
  match n with
  | O => ret []
  | S n' =>
      rs <- draws 1 ;;
      let j := Z.to_nat (hd 0%Z rs mod Z.of_nat (length pool)) in
      match pool !! j with
      | Some x => rest <- shuffle n' (delete j pool) ;; ret (x :: rest)
      | None => ret []
      end
  end.

Definition permutation (n : Z) : R (list nat) :=
  shuffle (Z.to_nat n) (seq 0 (Z.to_nat n)).

End np.

(* ===================================================================== *)
(** * The samplers *)
(* ===================================================================== *)

(** A numpy array: the element type and the values. *)
Inductive dtype : Type := int64 | float64.

Record ndarray : Type := NDArray { dtype_of : dtype; data : list Q }.

(** Integers stored in an array. *)
Definition of_ints (l : list Z) : list Q := inject_Z <$> l.

(** [mask = weights == 0; while mask.any(): body; mask = weights == 0].
    [body weights mask] is the assignment inside the loop. *)
Fixpoint while_any_zero (fuel : nat) (body : list Q -> list bool -> np.R (list Q))
    (weights : list Q) : np.R (list Q) :=
  let mask := np.eq_zero weights in
  if np.any mask then
    match fuel with
    | O => diverge
    | S fuel' => weights' <- body weights mask ;; while_any_zero fuel' body weights'
    end
  else ret weights.

(** The body of the re-sampling loop of [_sample_weights]. *)
Definition resample (min_w max_w : Q) (discrete : bool)
    (weights : list Q) (mask : list bool) : np.R (list Q) :=
  if discrete then
    vals <- np.randint min_w (max_w + 1) (np.sum_mask mask) ;;
    ret (np.setitem_mask weights mask (of_ints vals))
  else
    vals <- np.uniform min_w max_w (np.sum_mask mask) ;;
    ret (np.setitem_mask weights mask (np.round vals)).

Definition _sample_weights (fuel : nat) (min_w max_w : Q) (length : Z)
    (discrete no_zero : bool) : np.R ndarray :=
  weights <- (if discrete then
                vals <- np.randint min_w (max_w + 1) length ;; ret (of_ints vals)
              else
                vals <- np.uniform min_w max_w length ;; ret (np.round vals)) ;;
  weights <- (if no_zero then
                while_any_zero fuel (resample min_w max_w discrete) weights
              else ret weights) ;;
  ret (NDArray (if discrete then int64 else float64) weights).

(** The body of the re-sampling loop of [_sample_with_ratio]; the lower
    bound of the integer draw is [min_w if mask.any() else 1]. *)
Definition resample_ratio (min_w max_w : Q) (discrete : bool)
    (weights : list Q) (mask : list bool) : np.R (list Q) :=
  if discrete then
    vals <- np.randint (if np.any mask then min_w else 1) (max_w + 1) (np.sum_mask mask) ;;
    ret (np.setitem_mask weights mask (of_ints vals))
  else
    vals <- np.uniform min_w max_w (np.sum_mask mask) ;;
    ret (np.setitem_mask weights mask (np.round vals)).

(** [int(round(pos_percentage / 100 * length))]. *)
Definition pos_count (pos_percentage : Q) (length : Z) : Z :=
  Num.rint (pos_percentage / 100 * inject_Z length).

Definition _sample_with_ratio (fuel : nat) (min_w max_w : Q) (length : Z)
    (pos_percentage : Q) (discrete no_zero : bool) : np.R ndarray :=
  let pos_cnt := pos_count pos_percentage length in
  let neg_cnt := (length - pos_cnt)%Z in
  indices <- np.permutation length ;;
  let pos_idx := np.slice_to indices pos_cnt in
  let neg_idx := np.slice_from indices pos_cnt in
  weights <- np.zeros length ;;
  (* positive part *)
  vals <- (if discrete then
             vals <- np.randint (if no_zero then 1 else 0) (max_w + 1) pos_cnt ;;
             ret (of_ints vals)
           else
             vals <- np.uniform 0 max_w pos_cnt ;; ret (np.round vals)) ;;
  weights <- np.setitem_idx weights pos_idx vals ;;
  (* negative part *)
  vals <- (if discrete then
             vals <- np.randint min_w 0 neg_cnt ;; ret (of_ints vals)
           else
             vals <- np.uniform min_w 0 neg_cnt ;; ret (np.round vals)) ;;
  weights <- np.setitem_idx weights neg_idx vals ;;
  weights <- (if no_zero then
                while_any_zero fuel (resample_ratio min_w max_w discrete) weights
              else ret weights) ;;
  ret (NDArray float64 weights).

(* ===================================================================== *)
(** * Deriving the optimum *)
(* ===================================================================== *)

(** [weights > 0], [.astype(int)], [optimal_gene == 1], [weights[mask]],
    [.sum()]. *)
Definition gt_zero (a : list Q) : list bool := Num.gt0 <$> a.
Definition astype_int (mask : list bool) : list Z :=
  (fun b : bool => if b then 1%Z else 0%Z) <$> mask.
Definition eq_one (g : list Z) : list bool := Z.eqb 1 <$> g.

Fixpoint getitem_mask (a : list Q) (mask : list bool) : list Q :=
  match a, mask with
  | x :: a', b :: mask' => if b then x :: getitem_mask a' mask' else getitem_mask a' mask'
  | _, _ => []
  end.

Definition sum (a : list Q) : Q := foldr Qplus 0%Q a.

(** [optimal_gene = (weights > 0).astype(int)] *)
Definition optimal_gene (weights : list Q) : list Z := astype_int (gt_zero weights).

(** [max_fitness = weights[optimal_gene == 1].sum()] *)
Definition max_fitness (weights : list Q) : Q :=
  sum (getitem_mask weights (eq_one (optimal_gene weights))).

(* ===================================================================== *)
(** * Files and the generator *)
(* ===================================================================== *)

(** The state of a run: the random generator, the files (path to content)
    and the lines printed. *)
Record world : Type := World {
  w_rng : np.rng;
  w_fs : gmap string string;
  w_out : list string
}.

Definition set_rng (g : np.rng) (w : world) : world := World g (w_fs w) (w_out w).
Definition set_fs (fs : gmap string string) (w : world) : world := World (w_rng w) fs (w_out w).

Definition with_rng {A} (c : np.R A) : M world A := zoom w_rng set_rng c.

Definition nl : string := String (Ascii.ascii_of_nat 10) EmptyString.

Module os.

(** What [os.path.join(dir, name)] puts before a relative [name]. *)
Definition dir_prefix (dir : string) : string :=
  match String.get (String.length dir - 1) dir with
  | None => ""
  | Some c => if Ascii.eqb c "/"%char then dir else dir +:+ "/"
  end.

Definition path_join (dir name : string) : string := dir_prefix dir +:+ name.

Definition path_exists (path : string) : M world bool :=
  fun w => (Ret (bool_decide (is_Some (w_fs w !! path))), w).

(** [os.makedirs(dir, exist_ok=True)]: directories are implicit in the
    model; the call fails on an empty path and on the path of a file. *)
Definition makedirs (dir : string) : M world unit :=
  fun w =>
    if decide (dir = "") then (Raise OSError, w)
    else if bool_decide (is_Some (w_fs w !! dir)) then (Raise OSError, w)
    else (Ret tt, w).

(** [open(path, "w")] followed by one write of [content]. *)
Definition write_file (path content : string) : M world unit :=
  fun w => (Ret tt, set_fs (<[path := content]> (w_fs w)) w).

(** [fp.write(s)] on a file opened before. *)
Definition append_file (path s : string) : M world unit :=
  fun w => (Ret tt, set_fs (alter (fun c => c +:+ s) path (w_fs w)) w).

End os.

Definition print (line : string) : M world unit :=
  fun w => (Ret tt, World (w_rng w) (w_fs w) (w_out w ++ [line])).

Definition instance_name (i : nat) : string := "instance_" +:+ pretty i +:+ ".csv".

(** [while os.path.exists(...): i += 1] *)
Fixpoint scan_index (fuel : nat) (output_dir : string) (i : nat) : M world nat :=
  found <- os.path_exists (os.path_join output_dir (instance_name i)) ;;
  if found then
    match fuel with
    | O => diverge
    | S fuel' => scan_index fuel' output_dir (S i)
    end
  else ret i.

Definition _next_available_index (fuel : nat) (output_dir : string) : M world nat :=
  scan_index fuel output_dir 0.

(** [itertools.product(l1, l2, l3)] *)
Definition product3 {A B C} (l1 : list A) (l2 : list B) (l3 : list C) : list (A * B * C) :=
  flat_map (fun a => flat_map (fun b => map (fun c => (a, b, c)) l3) l2) l1.

(** The parameters of one sweep cell. *)
Record config : Type := Config {
  output_dir : string;
  min_w : Q;
  max_w : Q;
  length_ : Z;
  discrete : bool;
  fmt : Z;
  no_zero : bool;
  pos_percentage : option Q
}.

Definition use_overview (c : config) : bool := (fmt c =? 0)%Z || (fmt c =? 2)%Z.
Definition use_single (c : config) : bool := (fmt c =? 1)%Z || (fmt c =? 2)%Z.

(** Step 1 of the loop body: the weight vector. *)
Definition sample (fuel : nat) (c : config) : np.R ndarray :=
  match pos_percentage c with
  | None => _sample_weights fuel (min_w c) (max_w c) (length_ c) (discrete c) (no_zero c)
  | Some p => _sample_with_ratio fuel (min_w c) (max_w c) (length_ c) p (discrete c) (no_zero c)
  end.

Section Generator.

(** [str] of a Python float is a library function; the development is
    parametric in it. *)
Variable str_float : Q -> string.

Definition str_bool (b : bool) : string := if b then "True" else "False".
Definition str_int (z : Z) : string := pretty z.
Definition str_elem (dt : dtype) (q : Q) : string :=
  match dt with
  | int64 => str_int (Num.int_of_float q)
  | float64 => str_float q
  end.
Definition str_opt_float (p : option Q) : string :=
  match p with
  | None => "None"
  | Some q => str_float q
  end.

(** The nine strings written to the per-instance file. *)
Definition csv_writes (c : config) (weights : ndarray) : list string :=
  let optimal_gene := optimal_gene (data weights) in
  let max_fitness := max_fitness (data weights) in
  [ "Max Fitness," +:+ str_elem (dtype_of weights) max_fitness +:+ nl;
    "String Length," +:+ str_int (length_ c) +:+ nl;
    "Min Weight," +:+ str_float (min_w c) +:+ nl;
    "Max Weight," +:+ str_float (max_w c) +:+ nl;
    "Discrete," +:+ str_bool (discrete c) +:+ nl;
    "No Zero," +:+ str_bool (no_zero c) +:+ nl;
    "Pos Percentage," +:+ str_opt_float (pos_percentage c) +:+ nl;
    "Genes," +:+ String.concat "," (str_int <$> optimal_gene) +:+ nl;
    "Weights," +:+ String.concat "," (str_elem (dtype_of weights) <$> data weights) +:+ nl ].

Definition overview_name (c : config) : string :=
  "Instance_length_" +:+ str_int (length_ c) +:+
  "_weights_" +:+ str_float (min_w c) +:+ "_to_" +:+ str_float (max_w c) +:+
  "_" +:+ (if discrete c then "D" else "C") +:+ ".txt".

Definition overview_path (c : config) : string :=
  os.path_join (output_dir c) (overview_name c).

(** The body of [for _ in range(num_instances)]. *)
Definition generate_one (fuel : nat) (c : config) : M world unit :=
  weights <- with_rng (sample fuel c) ;;
  let optimal_gene := optimal_gene (data weights) in
  (if use_single c then
     file_idx <- _next_available_index fuel (output_dir c) ;;
     let csv_path := os.path_join (output_dir c) (instance_name file_idx) in
     os.write_file csv_path (String.concat "" (csv_writes c weights))
   else ret tt) ;;;
  (if use_overview c then
     os.append_file (overview_path c)
       ("Genes:   " +:+ String.concat " " (str_int <$> optimal_gene) +:+ nl) ;;;
     os.append_file (overview_path c)
       ("Weights: " +:+ String.concat " " (str_elem (dtype_of weights) <$> data weights)
        +:+ nl +:+ nl)
   else ret tt) ;;;
  print ("Generated WBS(" +:+ str_int (length_ c) +:+ ") in [" +:+
         str_float (min_w c) +:+ "," +:+ str_float (max_w c) +:+ "]").

(** The body of [for min_w, max_w, length in combinations]. *)
Definition generate_cell (fuel : nat) (num_instances : Z) (c : config) : M world unit :=
  (if use_overview c then os.write_file (overview_path c) "" else ret tt) ;;;
  for_each (seq 0 (Z.to_nat num_instances)) (fun _ => generate_one fuel c).

Definition generate_instances (fuel : nat) (output_dir : string) (num_instances : Z)
    (min_weights max_weights : list Q) (gene_lengths : list Z)
    (discrete : bool) (fmt : Z) (no_zero : bool) (pos_percentage : option Q)
    : M world unit :=
  os.makedirs output_dir ;;;
  let combinations := product3 min_weights max_weights gene_lengths in
  for_each combinations (fun '(min_w, max_w, length) =>
    generate_cell fuel num_instances
      (Config output_dir min_w max_w length discrete fmt no_zero pos_percentage)).

End Generator.

(* ===================================================================== *)
(** * Vocabulary of the properties *)
(* ===================================================================== *)

(** ** Steps of the samplers and of the loop body, by name

    The samplers and [generate_one] are written in one piece above, as in
    the source.  Their steps are named here; the unfolding lemmas below
    ([_sample_with_ratio_unfold], [generate_one_unfold], ...) hold by
    computation. *)

(** The first draw of [_sample_weights]. *)
Definition first_draw (min_w max_w : Q) (length : Z) (discrete : bool) : np.R (list Q) :=
  if discrete then
    vals <- np.randint min_w (max_w + 1) length ;; ret (of_ints vals)
  else
    vals <- np.uniform min_w max_w length ;; ret (np.round vals).

(** The draws for the positive and for the negative part of
    [_sample_with_ratio]. *)
Definition pos_draw (max_w : Q) (pos_cnt : Z) (discrete no_zero : bool) : np.R (list Q) :=
  if discrete then
    vals <- np.randint (if no_zero then 1 else 0) (max_w + 1) pos_cnt ;; ret (of_ints vals)
  else
    vals <- np.uniform 0 max_w pos_cnt ;; ret (np.round vals).

Definition neg_draw (min_w : Q) (neg_cnt : Z) (discrete : bool) : np.R (list Q) :=
  if discrete then
    vals <- np.randint min_w 0 neg_cnt ;; ret (of_ints vals)
  else
    vals <- np.uniform min_w 0 neg_cnt ;; ret (np.round vals).


Section Steps.

Variable str_float : Q -> string.

(** Steps 3 and 4 of the loop body, and the progress line. *)
Definition write_single (fuel : nat) (c : config) (weights : ndarray) : M world unit :=
  if use_single c then
    file_idx <- _next_available_index fuel (output_dir c) ;;
    let csv_path := os.path_join (output_dir c) (instance_name file_idx) in
    os.write_file csv_path (String.concat "" (csv_writes str_float c weights))
  else ret tt.

Definition write_overview (c : config) (weights : ndarray) : M world unit :=
  if use_overview c then
    os.append_file (overview_path str_float c)
      ("Genes:   " +:+ String.concat " " (str_int <$> optimal_gene (data weights)) +:+ nl) ;;;
    os.append_file (overview_path str_float c)
      ("Weights: " +:+ String.concat " " (str_elem str_float (dtype_of weights) <$> data weights)
       +:+ nl +:+ nl)
  else ret tt.

Definition progress (c : config) : string :=
  "Generated WBS(" +:+ str_int (length_ c) +:+ ") in [" +:+
  str_float (min_w c) +:+ "," +:+ str_float (max_w c) +:+ "]".

End Steps.

(** ** Weights *)



Definition is_bit (b : Z) : Prop := b = 0%Z \/ b = 1%Z.




Definition in_range (min_w max_w v : Q) : Prop := (min_w <= v <= max_w)%Q.

Definition has_zero (ws : list Q) : Prop := exists i w, ws !! i = Some w /\ (w == 0)%Q.

(** ** Draws *)

(** The weight that one raw draw gives in the unconstrained sampler, and
    the weights that the range admits. *)
Definition draw1 (min_w max_w : Q) (discrete : bool) (r : Z) : Q :=
  if discrete then
    inject_Z (np.bounded (Num.int_of_float min_w) (Num.int_of_float (max_w + 1) - 1) r)
  else Num.round2 (np.uniform1 min_w max_w r).

Definition drawn (min_w max_w : Q) (discrete : bool) (v : Q) : Prop :=
  if discrete then
    exists k : Z, v = inject_Z k /\
      (Num.int_of_float min_w <= k <= Num.int_of_float (max_w + 1) - 1)%Z
  else exists r : Z, v = Num.round2 (np.uniform1 min_w max_w r).

(** The integer range is not empty, so that [randint] does not raise. *)
Definition range_ok (min_w max_w : Q) (discrete : bool) : Prop :=
  discrete = true -> (Num.int_of_float min_w <= Num.int_of_float (max_w + 1) - 1)%Z.

(** The range admits a value, and admits only zero. *)
Definition only_zero (min_w max_w : Q) (discrete : bool) : Prop :=
  (exists v, drawn min_w max_w discrete v) /\
  forall v, drawn min_w max_w discrete v -> (v == 0)%Q.

(** Sampling for the configuration returns, whatever the draws. *)
Definition sampling_returns (fuel : nat) (c : config) : Prop :=
  forall g, exists a g', sample fuel c g = (Ret a, g').


(** ** Files *)

Definition instance_path (dir : string) (i : nat) : string :=
  os.path_join dir (instance_name i).

(** The instance files of [dir] are exactly those numbered below [k]. *)
Definition numbered (dir : string) (fs : gmap string string) (k : nat) : Prop :=
  forall i, is_Some (fs !! instance_path dir i) <-> i < k.

(** [n] is the least number without an instance file. *)
Definition least_free (dir : string) (fs : gmap string string) (n : nat) : Prop :=
  fs !! instance_path dir n = None /\
  forall j, j < n -> is_Some (fs !! instance_path dir j).

(** How far the numbering advances: by one per instance when per-instance
    files are written. *)
Definition files_per_instance (c : config) : nat := if use_single c then 1 else 0.

(** Every file of [fs'] is a file of [fs] or an instance file of [dir]. *)
Definition only_adds_instances (dir : string) (fs fs' : gmap string string) : Prop :=
  forall p, is_Some (fs' !! p) -> is_Some (fs !! p) \/ exists i, p = instance_path dir i.



(** ** Example runs *)

(** A stand-in for [str] of a float in the examples: the fraction as text. *)
Definition fraction_text (q : Q) : string :=
  pretty (Qnum q) +:+ "/" +:+ pretty (Zpos (Qden q)).

(** An instance without a positive percentage: five integer weights of
    [[-10, 10]], as [_sample_weights] returns them on the draws
    [3, 25, 10, 0, 7]. *)
Definition c8_config : config := Config "out" (-10) 10 5 true 1 false None.
Definition c8_draws : np.rng := fun n => nth n [3; 25; 10; 0; 7]%Z 0%Z.
Definition c8_weights : ndarray := NDArray int64 [-7; -6; 0; -10; -3]%Q.



Definition c2_weights : list Q := [5; 0; 3; 8; 1; 10; 2; -10; -6; -1]%Q.


(** The state before two instances for each of two lengths are written to
    an empty directory. *)
Definition c7_world : world :=
  World (fun n => nth n [3; 25; 10; 0; 7; 10; 11; 23; 24; 50; 60; 80; 1; 2; 3; 4]%Z 0%Z) ∅ [].

(** ** Further vocabulary *)




(** The cells of a sweep, in the order of the loop, and the progress lines
    of a run that completes them. *)
Definition cells_of (dir : string) (mins maxs : list Q) (lens : list Z)
    (discrete : bool) (fmt : Z) (no_zero : bool) (pos_percentage : option Q) : list config :=
  (fun '(a, b, l) => Config dir a b l discrete fmt no_zero pos_percentage)
    <$> product3 mins maxs lens.

Definition progress_lines (str_float : Q -> string) (num_instances : Z)
    (cells : list config) : list string :=
  cells ≫= (fun c => replicate (Z.to_nat num_instances) (progress str_float c)).



(** The file [p], when it exists in [w], has the same content in [w']. *)
Definition keeps (p : string) (w w' : world) : Prop :=
  forall v, w_fs w !! p = Some v -> w_fs w' !! p = Some v.

(** The state before a run with both formats, two instances of three
    weights, and the state before a run in a directory that holds
    [instance_0.csv]. *)
Definition x9_world : world :=
  World (fun n => nth n [3; 25; 10; 0; 7; 11]%Z 0%Z) ∅ [].

Definition x12_world : world :=
  World (fun n => nth n [3; 25; 10; 0; 7; 11]%Z 0%Z)
    (<[instance_path "out" 0 := "Max Fitness,0"]> ∅) [].

(* ===================================================================== *)
(** * The command line *)
(* ===================================================================== *)

(** The string methods and the [getopt] module are library code outside
    the repository; they are modelled after their documented behaviour. *)
Module str.

(** [a in chars] *)
Definition mem (a : ascii) (chars : string) : bool :=
  existsb (Ascii.eqb a) (String.list_ascii_of_string chars).

(** [s.lstrip(chars)], [s.rstrip(chars)] and [s.strip(chars)] *)
Fixpoint lstrip (chars s : string) : string :=
  match s with
  | EmptyString => EmptyString
  | String a s' => if mem a chars then lstrip chars s' else s
  end.

Fixpoint rstrip (chars s : string) : string :=
  match s with
  | EmptyString => EmptyString
  | String a s' =>
      match rstrip chars s' with
      | EmptyString => if mem a chars then EmptyString else String a EmptyString
      | r => String a r
      end
  end.

Definition strip (chars s : string) : string := rstrip chars (lstrip chars s).

(** [s.split(sep)] for a separator of one character: never an empty
    list. *)
Fixpoint split (sep : ascii) (s : string) : list string :=
  match s with
  | EmptyString => [EmptyString]
  | String a s' =>
      if Ascii.eqb a sep then EmptyString :: split sep s'
      else
        match split sep s' with
        | [] => [String a EmptyString]
        | x :: xs => String a x :: xs
        end
  end.

(** [sep.join(l)] *)
Definition join (sep : string) (l : list string) : string := String.concat sep l.

(** [s.startswith(p)], [s.endswith(c)] for one character, [s[n:]] and
    [s[:-1]] *)
Definition startswith (s p : string) : bool := String.prefix p s.

Fixpoint endswith (s : string) (c : ascii) : bool :=
  match s with
  | EmptyString => false
  | String a s' =>
      match s' with
      | EmptyString => Ascii.eqb a c
      | _ => endswith s' c
      end
  end.

Fixpoint slice_from (s : string) (n : nat) : string :=
  match n, s with
  | O, _ => s
  | S n', String _ s' => slice_from s' n'
  | S _, EmptyString => EmptyString
  end.

Fixpoint drop_last (s : string) : string :=
  match s with
  | EmptyString => EmptyString
  | String a s' =>
      match s' with
      | EmptyString => EmptyString
      | _ => String a (drop_last s')
      end
  end.

End str.

Module getopt.

(** [GetoptError(msg, opt)]; the four messages of the module. *)
Inductive message : Type :=
| not_recognized
| requires_argument
| must_not_have_an_argument
| not_a_unique_prefix.

Inductive GetoptError : Type := Error (msg : message) (opt : string).

(** The options found so far, as pairs of name and argument, and the
    arguments left. *)
Definition parsed : Type := list (string * string) * list string.

Definition short_name (opt : ascii) : string := String "-" (String opt EmptyString).

(** [short_has_arg(opt, shortopts)]: is the letter followed by a colon. *)
Fixpoint short_has_arg (opt : ascii) (shortopts : string) : GetoptError + bool :=
  match shortopts with
  | EmptyString => inl (Error not_recognized (String opt EmptyString))
  | String c rest =>
      if Ascii.eqb opt c && negb (Ascii.eqb c ":") then inr (str.startswith rest ":")
      else short_has_arg opt rest
  end.

(** [do_shorts(opts, optstring, shortopts, args)]: the options of one
    cluster.  The options are returned in order instead of appended to
    [opts]. *)
Fixpoint do_shorts (optstring shortopts : string) (args : list string)
    : GetoptError + parsed :=
  match optstring with
  | EmptyString => inr ([], args)
  | String opt optstring' =>
      match short_has_arg opt shortopts with
      | inl e => inl e
      | inr true =>
          match optstring', args with
          | EmptyString, [] => inl (Error requires_argument (String opt EmptyString))
          | EmptyString, optarg :: args' => inr ([(short_name opt, optarg)], args')
          | _, _ => inr ([(short_name opt, optstring')], args)
          end
      | inr false =>
          match do_shorts optstring' shortopts args with
          | inl e => inl e
          | inr (opts, args') => inr ((short_name opt, EmptyString) :: opts, args')
          end
      end
  end.

(** [opt.index('=')] and the two slices around it. *)
Fixpoint split_eq (opt : string) : string * option string :=
  match opt with
  | EmptyString => (EmptyString, None)
  | String a opt' =>
      if Ascii.eqb a "=" then (EmptyString, Some opt')
      else let (o, v) := split_eq opt' in (String a o, v)
  end.

(** [long_has_args(opt, longopts)]: an exact name, or the only name that
    [opt] is a prefix of. *)
Definition long_has_args (opt : string) (longopts : list string)
    : GetoptError + bool * string :=
  let possibilities := filter (fun o => str.startswith o opt = true) longopts in
  if bool_decide (possibilities = []) then inl (Error not_recognized opt)
  else if bool_decide (opt ∈ possibilities) then inr (false, opt)
  else if bool_decide (opt +:+ "=" ∈ possibilities) then inr (true, opt)
  else
    match possibilities with
    | [unique_match] =>
        let has_arg := str.endswith unique_match "=" in
        inr (has_arg, if has_arg then str.drop_last unique_match else unique_match)
    | _ => inl (Error not_a_unique_prefix opt)
    end.

(** [do_longs(opts, opt, longopts, args)] *)
Definition do_longs (opt : string) (longopts : list string) (args : list string)
    : GetoptError + parsed :=
  let (opt, optarg) := split_eq opt in
  match long_has_args opt longopts with
  | inl e => inl e
  | inr (has_arg, opt) =>
      if has_arg then
        match optarg, args with
        | Some v, _ => inr ([("--" +:+ opt, v)], args)
        | None, [] => inl (Error requires_argument opt)
        | None, v :: args' => inr ([("--" +:+ opt, v)], args')
        end
      else
        match optarg with
        | Some _ => inl (Error must_not_have_an_argument opt)
        | None => inr ([("--" +:+ opt, EmptyString)], args)
        end
  end.

(** The loop of [getopt]: it ends at the first argument that is not an
    option and after [--].  Every turn takes at least one argument, so the
    number of arguments bounds the number of turns. *)
Fixpoint loop (turns : nat) (args : list string) (shortopts : string)
    (longopts : list string) : GetoptError + parsed :=
  match args with
  | [] => inr ([], [])
  | arg :: args' =>
      if str.startswith arg "-" && negb (String.eqb arg "-") then
        if String.eqb arg "--" then inr ([], args')
        else
          match turns with
          | O => inr ([], args)
          | S turns' =>
              match (if str.startswith arg "--"
                     then do_longs (str.slice_from arg 2) longopts args'
                     else do_shorts (str.slice_from arg 1) shortopts args') with
              | inl e => inl e
              | inr (opts, args'') =>
                  match loop turns' args'' shortopts longopts with
                  | inl e => inl e
                  | inr (opts', rest) => inr (opts ++ opts', rest)
                  end
              end
          end
      else inr ([], args)
  end.

(** [getopt.getopt(args, shortopts, longopts)] *)
Definition getopt (args : list string) (shortopts : string) (longopts : list string)
    : GetoptError + parsed :=
  loop (length args) args shortopts longopts.

End getopt.

Module cli.

(** The dictionary [args] of [main]: its keys are fixed, so it is a
    record. *)
Record args : Type := Args {
  num_instances : Z;
  min_weights : list Q;
  max_weights : list Q;
  gene_lengths : list Z;
  output_dir : string;
  discrete : bool;
  format : Z;
  no_zero : bool;
  pos_percentage : option Q
}.

Definition defaults : args :=
  Args 1 [-10]%Q [10]%Q [1000]%Z "Instances" true 1 false None.

Definition shortopts : string := "n:a:b:l:o:wdzp:f:".

Definition longopts : list string :=
  [ "num_instances="; "min_weights="; "max_weights="; "gene_lengths="; "output_dir=";
    "discrete"; "no_zero"; "pos_percentage="; "format=" ].

(** [opt in (short, long)] *)
Definition opt_in (opt : string) (names : list string) : bool := bool_decide (opt ∈ names).

(** [val.strip("[]").split(",")] *)
Definition list_arg (val : string) : list string := str.split "," (str.strip "[]" val).

Section Main.

(** [int] and [float] of a string are library functions; the development
    is parametric in them.  [None] stands for [ValueError]; floats are
    rationals, so the values [inf] and [nan] that [float] accepts are
    outside the model. *)
Variable py_int : string -> option Z.
Variable py_float : string -> option Q.
Variable str_float : Q -> string.

(** [list(map(f, l))] *)
Definition list_map {A} (f : string -> option A) (l : list string) : exn + list A :=
  match mapM f l with
  | Some r => inr r
  | None => inl ValueError
  end.

Definition convert {A} (f : string -> option A) (val : string) : exn + A :=
  match f val with
  | Some r => inr r
  | None => inl ValueError
  end.

(** The body of [for opt, val in opts]. *)
Definition set_option (a : args) (opt val : string) : exn + args :=
  if opt_in opt ["-n"; "--num_instances"] then
    match convert py_int val with
    | inl e => inl e
    | inr n => inr (Args n (min_weights a) (max_weights a) (gene_lengths a) (output_dir a)
                      (discrete a) (format a) (no_zero a) (pos_percentage a))
    end
  else if opt_in opt ["-a"; "--min_weights"] then
    match list_map py_float (list_arg val) with
    | inl e => inl e
    | inr l => inr (Args (num_instances a) l (max_weights a) (gene_lengths a) (output_dir a)
                      (discrete a) (format a) (no_zero a) (pos_percentage a))
    end
  else if opt_in opt ["-b"; "--max_weights"] then
    match list_map py_float (list_arg val) with
    | inl e => inl e
    | inr l => inr (Args (num_instances a) (min_weights a) l (gene_lengths a) (output_dir a)
                      (discrete a) (format a) (no_zero a) (pos_percentage a))
    end
  else if opt_in opt ["-l"; "--gene_lengths"] then
    match list_map py_int (list_arg val) with
    | inl e => inl e
    | inr l => inr (Args (num_instances a) (min_weights a) (max_weights a) l (output_dir a)
                      (discrete a) (format a) (no_zero a) (pos_percentage a))
    end
  else if opt_in opt ["-o"; "--output_dir"] then
    inr (Args (num_instances a) (min_weights a) (max_weights a) (gene_lengths a) val
           (discrete a) (format a) (no_zero a) (pos_percentage a))
  else if opt_in opt ["-w"; "--discrete"] then
    inr (Args (num_instances a) (min_weights a) (max_weights a) (gene_lengths a) (output_dir a)
           true (format a) (no_zero a) (pos_percentage a))
  else if opt_in opt ["-z"; "--no_zero"] then
    inr (Args (num_instances a) (min_weights a) (max_weights a) (gene_lengths a) (output_dir a)
           (discrete a) (format a) true (pos_percentage a))
  else if opt_in opt ["-p"; "--pos_percentage"] then
    match convert py_float val with
    | inl e => inl e
    | inr p => inr (Args (num_instances a) (min_weights a) (max_weights a) (gene_lengths a)
                      (output_dir a) (discrete a) (format a) (no_zero a) (Some p))
    end
  else if opt_in opt ["-f"; "--format"] then
    match convert py_int val with
    | inl e => inl e
    | inr f => inr (Args (num_instances a) (min_weights a) (max_weights a) (gene_lengths a)
                      (output_dir a) (discrete a) f (no_zero a) (pos_percentage a))
    end
  else inr a.

(** [for opt, val in opts: ...] *)
Fixpoint set_options (opts : list (string * string)) (a : args) : exn + args :=
  match opts with
  | [] => inr a
  | (opt, val) :: opts' =>
      match set_option a opt val with
      | inl e => inl e
      | inr a' => set_options opts' a'
      end
  end.

(** The call that ends [main]. *)
Definition generate (fuel : nat) (a : args) : M world unit :=
  generate_instances str_float fuel (output_dir a) (num_instances a)
    (min_weights a) (max_weights a) (gene_lengths a)
    (discrete a) (format a) (no_zero a) (pos_percentage a).

(** [main(argv)]: a [GetoptError], or the outcome of what follows the
    call of [getopt]. *)
Definition main (fuel : nat) (argv : list string) (w : world)
    : (getopt.GetoptError + outcome unit) * world :=
  match getopt.getopt argv shortopts longopts with
  | inl e => (inl e, w)
  | inr (opts, _) =>
      match set_options opts defaults with
      | inl e => (inr (Raise e), w)
      | inr a => let (o, w') := generate fuel a w in (inr o, w')
      end
  end.

End Main.

End cli.

(** The command that [Run_instance_generator.py] builds for one length.
    The child process that runs it is outside the model; its argument
    vector is the command without the interpreter and the script. *)
Module driver.

Definition OUTPUT_DIR : string := "instance".
Definition NUM_INSTANCES : Z := 1.
Definition MIN_WEIGHTS : string := "[-25]".
Definition MAX_WEIGHTS : string := "[25]".
Definition NO_ZERO_FLAG : string := "--no_zero".
Definition DISCRETE_FLAG : string := "--discrete".
Definition POS_PERCENTAGE : option Z := None.

Definition GENE_START : Z := 10000.
Definition GENE_END : Z := 10000.
Definition STEP : Z := 250.

(** [range(start, stop, step)] for a positive step. *)
Definition range (start stop step : Z) : list Z :=
  (fun i => start + Z.of_nat i * step)%Z
    <$> seq 0 (Z.to_nat ((stop - start + step - 1) / step)).

Definition lengths : list Z := range GENE_START (GENE_END + 1) STEP.

Definition cmd (length : Z) : list string :=
  [ "python3"; "InstanceGenerator/InstanceGenerator.py";
    "--output_dir"; OUTPUT_DIR;
    "--num_instances"; pretty NUM_INSTANCES;
    "--min_weights"; MIN_WEIGHTS;
    "--max_weights"; MAX_WEIGHTS;
    "--gene_lengths"; "[" +:+ pretty length +:+ "]";
    NO_ZERO_FLAG;
    DISCRETE_FLAG ]
  ++ match POS_PERCENTAGE with
     | Some p => ["--pos_percentage"; pretty p]
     | None => []
     end.

(** [sys.argv[1:]] of the child process. *)
Definition argv (length : Z) : list string := drop 2 (cmd length).

End driver.

(** ** Vocabulary of the command line *)

(** Every character of [s] satisfies [p]. *)
Fixpoint all_chars (p : ascii -> bool) (s : string) : bool :=
  match s with
  | EmptyString => true
  | String a s' => p a && all_chars p s'
  end.

(** A string without a bracket and without a comma, and a string of
    brackets. *)
Definition plain_char (a : ascii) : bool := negb (str.mem a "[],").

Definition plain (s : string) : Prop := all_chars plain_char s = true.

Definition brackets (s : string) : Prop := all_chars (fun a => str.mem a "[]") s = true.

(** What every dictionary [args] that [main] builds satisfies. *)
Definition from_command_line (a : cli.args) : Prop :=
  cli.discrete a = true /\ cli.min_weights a <> [] /\ cli.max_weights a <> [] /\
  cli.gene_lengths a <> [].

(** [opts] prepended to the options of a result of [getopt]. *)
Definition prepend (opts : list (string * string)) (r : getopt.GetoptError + getopt.parsed)
    : getopt.GetoptError + getopt.parsed :=
  match r with
  | inl e => inl e
  | inr (opts', rest) => inr (opts ++ opts', rest)
  end.

(** An argument at which [getopt] stops: no option, or [-]. *)
Definition positional (arg : string) : Prop :=
  str.startswith arg "-" = false \/ arg = "-".

(** Stand-ins for [int] and [float] in the examples: decimal integers. *)
Definition digit (a : ascii) : option Z :=
  let n := nat_of_ascii a in
  if (48 <=? n) && (n <=? 57) then Some (Z.of_nat (n - 48)) else None.

Fixpoint digits (acc : Z) (s : string) : option Z :=
  match s with
  | EmptyString => Some acc
  | String a s' =>
      match digit a with
      | Some d => digits (10 * acc + d) s'
      | None => None
      end
  end.

Definition decimal (s : string) : option Z :=
  match s with
  | EmptyString => None
  | String a s' =>
      if Ascii.eqb a "-" then
        match s' with
        | EmptyString => None
        | _ => Z.opp <$> digits 0 s'
        end
      else digits 0 s
  end.

Definition decimal_float (s : string) : option Q := inject_Z <$> decimal s.




(* ===================================================================== *)
(** * Facts about numbers *)
(* ===================================================================== *)

Lemma gt0_true (q : Q) : Num.gt0 q = true <-> (0 < q)%Q.
Proof.
  unfold Num.gt0. rewrite negb_true_iff, <- not_true_iff_false, Qle_bool_iff.
  split; [apply Qnot_le_lt | apply Qlt_not_le].
Qed.

Lemma gt0_false (q : Q) : Num.gt0 q = false <-> (q <= 0)%Q.
Proof. unfold Num.gt0. rewrite negb_false_iff. apply Qle_bool_iff. Qed.

Lemma eq0_true (q : Q) : Num.eq0 q = true <-> (q == 0)%Q.
Proof. apply Qeq_bool_iff. Qed.

Lemma eq0_false (q : Q) : Num.eq0 q = false <-> ~ (q == 0)%Q.
Proof. rewrite <- eq0_true. symmetry. apply not_true_iff_false. Qed.

(* ===================================================================== *)
(** * Facts about computations *)
(* ===================================================================== *)

Lemma bind_Ret {S A B} (c : M S A) (k : A -> M S B) s b s' :
  bind c k s = (Ret b, s') ->
  exists a s1, c s = (Ret a, s1) /\ k a s1 = (Ret b, s').
Proof.
  unfold bind. destruct (c s) as [[a | e |] s1]; intros H; try discriminate.
  eauto.
Qed.

Lemma ret_Ret {S A} (a b : A) (s s' : S) : ret a s = (Ret b, s') -> b = a /\ s' = s.
Proof. unfold ret. intros H. by inversion H. Qed.

(** Split a successful run into the runs of its parts. *)
Ltac inv_run H :=
  repeat match type of H with
    | bind _ _ _ = (Ret _, _) =>
        let a := fresh "a" in let s := fresh "g" in
        let H1 := fresh "Hrun" in
        apply bind_Ret in H as (a & s & H1 & H)
    | ret _ _ = (Ret _, _) => apply ret_Ret in H as [? ?]; subst
    end.

(* ===================================================================== *)
(** * Facts about the numpy primitives *)
(* ===================================================================== *)

Lemma bounded_range (lo hi r : Z) :
  (lo <= hi)%Z -> (lo <= np.bounded lo hi r <= hi)%Z.
Proof.
  intros Hle. unfold np.bounded.
  pose proof (Z.mod_pos_bound r (hi - lo + 1)) as Hm. lia.
Qed.

Lemma randint_Ret low high size g vs g' :
  np.randint low high size g = (Ret vs, g') ->
  (0 <= size)%Z /\ length vs = Z.to_nat size /\
  Forall (fun v => (Num.int_of_float low <= v <= Num.int_of_float high - 1)%Z) vs.
Proof.
  unfold np.randint. destruct (Z.eqb_spec size 0) as [-> | Hne].
  - intros [-> _]%ret_Ret. by repeat split.
  - destruct (Z.ltb_spec (Num.int_of_float high - 1) (Num.int_of_float low)); [discriminate |].
    destruct (Z.ltb_spec size 0); [discriminate |].
    intros Hrun. inv_run Hrun. inversion Hrun0; subst.
    split; [lia |]. split.
    + by rewrite !length_fmap, length_seq.
    + apply Forall_fmap, Forall_fmap, Forall_forall. intros x _. simpl.
      by apply bounded_range.
Qed.

Lemma uniform_Ret low high size g vs g' :
  np.uniform low high size g = (Ret vs, g') ->
  (0 <= size)%Z /\ length vs = Z.to_nat size /\
  Forall (fun v => exists r, v = np.uniform1 low high r) vs.
Proof.
  unfold np.uniform. destruct (Z.ltb_spec size 0); [discriminate |].
  intros Hrun. inv_run Hrun. inversion Hrun0; subst.
  split; [lia |]. split.
  - by rewrite !length_fmap, length_seq.
  - apply Forall_fmap, Forall_fmap, Forall_forall. intros x _. simpl. eauto.
Qed.

Lemma zeros_Ret n g a g' :
  np.zeros n g = (Ret a, g') -> (0 <= n)%Z /\ a = replicate (Z.to_nat n) 0%Q.
Proof.
  unfold np.zeros. destruct (Z.ltb_spec n 0); [discriminate |].
  intros [-> _]%ret_Ret. split; [lia | done].
Qed.

Lemma zeros_state n g o g' : np.zeros n g = (o, g') -> g' = g.
Proof.
  unfold np.zeros. destruct (n <? 0)%Z; intros H; inversion H; done.
Qed.

Lemma setitem_mask_length a mask vals :
  length (np.setitem_mask a mask vals) = length a.
Proof.
  revert mask vals. induction a as [| x a IH]; intros [| [] mask] vals; simpl; try done.
  - destruct vals; simpl; by rewrite IH.
  - by rewrite IH.
Qed.


(** Positions outside the mask keep their value. *)
Lemma setitem_mask_keep a mask vals i :
  mask !! i = Some false -> np.setitem_mask a mask vals !! i = a !! i.
Proof.
  revert mask vals i. induction a as [| x a IH]; intros [| b mask] vals [| i] Hm;
    simpl in *; try done.
  - inversion Hm; subst. done.
  - destruct b; [destruct vals |]; simpl; by apply IH.
Qed.

(** Every position holds its old value or one of the new values. *)
Lemma setitem_mask_lookup a mask vals i y :
  np.setitem_mask a mask vals !! i = Some y -> a !! i = Some y \/ y ∈ vals.
Proof.
  revert mask vals i. induction a as [| x a IH]; intros [| b mask] vals i H;
    simpl in *; auto.
  destruct b; [destruct vals as [| v vals] |]; destruct i as [| i]; simpl in *; auto;
    try (inversion H; subst; right; constructor; fail);
    apply IH in H as [H | H]; auto; right; try done; by constructor.
Qed.

Lemma scatter_length a idx vals : length (np.scatter a idx vals) = length a.
Proof.
  revert a vals. induction idx as [| i idx IH]; intros a [| v vals]; simpl; try done.
  by rewrite IH, length_insert.
Qed.

Lemma scatter_Forall (P : Q -> Prop) a idx vals :
  Forall P a -> Forall P vals -> Forall P (np.scatter a idx vals).
Proof.
  revert a vals. induction idx as [| i idx IH]; intros a [| v vals] Ha Hv; simpl; try done.
  inversion Hv; subst. apply IH; [| done].
  destruct (decide (i < length a)).
  - by apply Forall_insert.
  - rewrite list_insert_ge by lia. done.
Qed.

Lemma setitem_idx_Ret a idx vals g a' g' :
  np.setitem_idx a idx vals g = (Ret a', g') ->
  length a' = length a /\
  forall P : Q -> Prop, Forall P a -> Forall P vals -> Forall P a'.
Proof.
  unfold np.setitem_idx. destruct (decide _).
  - intros [-> _]%ret_Ret. split; [apply scatter_length |].
    intros P. apply scatter_Forall.
  - destruct vals as [| v [| ? ?]]; try discriminate.
    intros [-> _]%ret_Ret. split; [apply scatter_length |].
    intros P Ha Hv. apply scatter_Forall; [done |].
    inversion Hv; subst. by apply Forall_replicate.
Qed.

(* ===================================================================== *)
(** * Facts about the re-sampling loop *)
(* ===================================================================== *)

Lemma any_eq_zero_false ws :
  np.any (np.eq_zero ws) = false <-> Forall (fun w => ~ (w == 0)%Q) ws.
Proof.
  unfold np.any, np.eq_zero. induction ws as [| w ws IH]; simpl.
  - split; auto.
  - rewrite orb_false_iff, IH, Forall_cons. unfold id. by rewrite eq0_false.
Qed.

(** An invariant of the loop body holds when the loop returns, and then no
    weight is zero. *)
Lemma while_any_zero_Ret (P : list Q -> Prop) fuel body ws g ws' g' :
  (forall ws g ws1 g1,
     P ws -> body ws (np.eq_zero ws) g = (Ret ws1, g1) -> P ws1) ->
  P ws ->
  while_any_zero fuel body ws g = (Ret ws', g') ->
  P ws' /\ Forall (fun w => ~ (w == 0)%Q) ws'.
Proof.
  intros Hbody. revert ws g. induction fuel as [| fuel IH]; intros ws g HP; simpl.
  - destruct (np.any (np.eq_zero ws)) eqn:Hany; [discriminate |].
    intros [-> _]%ret_Ret. split; [done | by apply any_eq_zero_false].
  - destruct (np.any (np.eq_zero ws)) eqn:Hany.
    + intros Hrun. apply bind_Ret in Hrun as (ws1 & g1 & Hb & Hrun).
      eapply IH; [| exact Hrun]. eauto.
    + intros [-> _]%ret_Ret. split; [done | by apply any_eq_zero_false].
Qed.

(** The loop calls its body only on a mask with a set bit: two bodies that
    agree on such masks give the same loop. *)
Lemma while_any_zero_ext fuel body1 body2 ws g :
  (forall ws mask g, np.any mask = true -> body1 ws mask g = body2 ws mask g) ->
  while_any_zero fuel body1 ws g = while_any_zero fuel body2 ws g.
Proof.
  intros Hext. revert ws g. induction fuel as [| fuel IH]; intros ws g; simpl; [done |].
  destruct (np.any (np.eq_zero ws)) eqn:Hany; [| done].
  unfold bind. rewrite (Hext _ _ _ Hany).
  destruct (body2 ws (np.eq_zero ws) g) as [[ws1 | e |] g1]; auto.
Qed.

Lemma sum_mask_none mask : np.any mask = false -> np.sum_mask mask = 0%Z.
Proof.
  unfold np.any, np.sum_mask. induction mask as [| [] mask IH]; simpl; done.
Qed.

(** The conditional lower bound of [_sample_with_ratio] never matters. *)
Lemma resample_ratio_eq min_w max_w discrete ws mask g :
  resample_ratio min_w max_w discrete ws mask g = resample min_w max_w discrete ws mask g.
Proof.
  unfold resample_ratio, resample. destruct discrete; [| done].
  destruct (np.any mask) eqn:Hany; [done |].
  unfold bind, np.randint. by rewrite (sum_mask_none _ Hany).
Qed.

Lemma of_ints_Forall (P : Z -> Prop) (Q' : Q -> Prop) vs :
  (forall k, P k -> Q' (inject_Z k)) -> Forall P vs -> Forall Q' (of_ints vs).
Proof.
  intros HPQ Hvs. unfold of_ints. apply Forall_fmap.
  eapply Forall_impl; [exact Hvs |]. intros k Hk. simpl. auto.
Qed.

Lemma round_Forall (P : Q -> Prop) (Q' : Q -> Prop) vs :
  (forall x, P x -> Q' (Num.round2 x)) -> Forall P vs -> Forall Q' (np.round vs).
Proof.
  intros HPQ Hvs. unfold np.round. apply Forall_fmap.
  eapply Forall_impl; [exact Hvs |]. intros k Hk. simpl. auto.
Qed.

Lemma resample_Ret min_w max_w discrete ws mask g ws' g' :
  resample min_w max_w discrete ws mask g = (Ret ws', g') ->
  exists vals, ws' = np.setitem_mask ws mask vals /\
    length vals = Z.to_nat (np.sum_mask mask) /\
    Forall (drawn min_w max_w discrete) vals.
Proof.
  unfold resample. destruct discrete; intros Hrun; inv_run Hrun.
  - apply randint_Ret in Hrun0 as (_ & Hlen & Hall).
    exists (of_ints a). split; [done |]. split.
    + unfold of_ints. by rewrite length_fmap.
    + eapply of_ints_Forall; [| exact Hall]. intros k Hk. exists k. done.
  - apply uniform_Ret in Hrun0 as (_ & Hlen & Hall).
    exists (np.round a). split; [done |]. split.
    + unfold np.round. by rewrite length_fmap.
    + eapply round_Forall; [| exact Hall]. intros x [r ->]. by exists r.
Qed.

Lemma eq_zero_lookup ws i w :
  ws !! i = Some w -> np.eq_zero ws !! i = Some (Num.eq0 w).
Proof. intros H. unfold np.eq_zero. by rewrite list_lookup_fmap, H. Qed.

(** One iteration leaves the non-zero positions alone. *)
Lemma resample_keep min_w max_w discrete ws g ws' g' i w :
  resample min_w max_w discrete ws (np.eq_zero ws) g = (Ret ws', g') ->
  ws !! i = Some w -> ~ (w == 0)%Q -> ws' !! i = Some w.
Proof.
  intros (vals & -> & _)%resample_Ret Hi Hw.
  rewrite setitem_mask_keep; [done |].
  rewrite (eq_zero_lookup _ _ _ Hi). f_equal. by apply eq0_false.
Qed.

Lemma resample_length min_w max_w discrete ws mask g ws' g' :
  resample min_w max_w discrete ws mask g = (Ret ws', g') -> length ws' = length ws.
Proof. intros (vals & -> & _)%resample_Ret. apply setitem_mask_length. Qed.

(* ===================================================================== *)
(** * Facts about the samplers *)
(* ===================================================================== *)

Lemma first_draw_Ret min_w max_w length discrete g ws g' :
  first_draw min_w max_w length discrete g = (Ret ws, g') ->
  (0 <= length)%Z /\ Datatypes.length ws = Z.to_nat length /\
  Forall (drawn min_w max_w discrete) ws.
Proof.
  unfold first_draw. destruct discrete; intros Hrun; inv_run Hrun.
  - apply randint_Ret in Hrun0 as (? & Hlen & Hall).
    split; [done |]. split.
    + unfold of_ints. by rewrite length_fmap.
    + eapply of_ints_Forall; [| exact Hall]. intros k Hk. exists k. done.
  - apply uniform_Ret in Hrun0 as (? & Hlen & Hall).
    split; [done |]. split.
    + unfold np.round. by rewrite length_fmap.
    + eapply round_Forall; [| exact Hall]. intros x [r ->]. by exists r.
Qed.

(** A successful run of [_sample_weights], taken apart. *)
Lemma _sample_weights_Ret fuel min_w max_w length discrete no_zero g a g' :
  _sample_weights fuel min_w max_w length discrete no_zero g = (Ret a, g') ->
  exists ws0 g0,
    first_draw min_w max_w length discrete g = (Ret ws0, g0) /\
    (if no_zero then
       while_any_zero fuel (resample min_w max_w discrete) ws0 g0 = (Ret (data a), g')
     else data a = ws0) /\
    dtype_of a = (if discrete then int64 else float64).
Proof.
  change (_sample_weights fuel min_w max_w length discrete no_zero g) with
    ((weights <- first_draw min_w max_w length discrete ;;
      weights <- (if no_zero then
                    while_any_zero fuel (resample min_w max_w discrete) weights
                  else ret weights) ;;
      ret (NDArray (if discrete then int64 else float64) weights)) g).
  intros Hrun. apply bind_Ret in Hrun as (ws0 & g0 & Hfirst & Hrun).
  apply bind_Ret in Hrun as (ws1 & g1 & Hloop & Hrun).
  apply ret_Ret in Hrun as [-> ->]. exists ws0, g0. split; [done |].
  destruct no_zero; simpl.
  - done.
  - apply ret_Ret in Hloop as [-> _]. done.
Qed.

Lemma _sample_with_ratio_unfold fuel min_w max_w length p discrete no_zero g :
  _sample_with_ratio fuel min_w max_w length p discrete no_zero g =
  (indices <- np.permutation length ;;
   weights <- np.zeros length ;;
   vals <- pos_draw max_w (pos_count p length) discrete no_zero ;;
   weights <- np.setitem_idx weights (np.slice_to indices (pos_count p length)) vals ;;
   vals <- neg_draw min_w (length - pos_count p length) discrete ;;
   weights <- np.setitem_idx weights (np.slice_from indices (pos_count p length)) vals ;;
   weights <- (if no_zero then
                 while_any_zero fuel (resample_ratio min_w max_w discrete) weights
               else ret weights) ;;
   ret (NDArray float64 weights)) g.
Proof. reflexivity. Qed.

(** A successful run of [_sample_with_ratio], taken apart. *)
Lemma _sample_with_ratio_Ret fuel min_w max_w length p discrete no_zero g a g' :
  _sample_with_ratio fuel min_w max_w length p discrete no_zero g = (Ret a, g') ->
  exists indices pvals ws1 nvals ws2 g1 g2 g3 g4 g5,
    np.permutation length g = (Ret indices, g1) /\
    (0 <= length)%Z /\
    pos_draw max_w (pos_count p length) discrete no_zero g1 = (Ret pvals, g2) /\
    np.setitem_idx (replicate (Z.to_nat length) 0%Q)
      (np.slice_to indices (pos_count p length)) pvals g2 = (Ret ws1, g3) /\
    neg_draw min_w (length - pos_count p length) discrete g3 = (Ret nvals, g4) /\
    np.setitem_idx ws1 (np.slice_from indices (pos_count p length)) nvals g4 = (Ret ws2, g5) /\
    (if no_zero then
       while_any_zero fuel (resample min_w max_w discrete) ws2 g5 = (Ret (data a), g')
     else data a = ws2) /\
    dtype_of a = float64.
Proof.
  rewrite _sample_with_ratio_unfold. intros Hrun.
  apply bind_Ret in Hrun as (indices & g1 & Hperm & Hrun).
  apply bind_Ret in Hrun as (ws0 & g1' & Hzeros & Hrun).
  pose proof (zeros_state _ _ _ _ Hzeros) as ->.
  apply zeros_Ret in Hzeros as [Hlen ->].
  apply bind_Ret in Hrun as (pvals & g2 & Hpos & Hrun).
  apply bind_Ret in Hrun as (ws1 & g3 & Hset1 & Hrun).
  apply bind_Ret in Hrun as (nvals & g4 & Hneg & Hrun).
  apply bind_Ret in Hrun as (ws2 & g5 & Hset2 & Hrun).
  apply bind_Ret in Hrun as (ws3 & g6 & Hloop & Hrun).
  apply ret_Ret in Hrun as [-> ->].
  exists indices, pvals, ws1, nvals, ws2, g1, g2, g3, g4, g5.
  repeat (split; [done |]). split; [| done].
  destruct no_zero; simpl.
  - rewrite <- Hloop. symmetry. apply while_any_zero_ext.
    intros. apply resample_ratio_eq.
  - apply ret_Ret in Hloop as [-> _]. done.
Qed.






(** The loop keeps the length and the non-zero positions of the array. *)
Lemma while_resample_keep min_w max_w discrete fuel ws g ws' g' :
  while_any_zero fuel (resample min_w max_w discrete) ws g = (Ret ws', g') ->
  length ws' = length ws /\
  forall i w, ws !! i = Some w -> ~ (w == 0)%Q -> ws' !! i = Some w.
Proof.
  intros Hrun.
  eapply (while_any_zero_Ret
            (fun a => length a = length ws /\
                      forall i w, ws !! i = Some w -> ~ (w == 0)%Q -> a !! i = Some w))
    in Hrun as [HP _]; [done | | done].
  clear. intros a g a1 g1 [Hlen Hkeep] Hstep. split.
  - rewrite <- Hlen. by eapply resample_length.
  - intros i w Hi Hw. eapply resample_keep; eauto.
Qed.

(* ===================================================================== *)
(** * The optimum (claims C1 and C3) *)
(* ===================================================================== *)

Lemma sample_length fuel c g a g' :
  sample fuel c g = (Ret a, g') -> Z.of_nat (length (data a)) = length_ c.
Proof.
  unfold sample. destruct (pos_percentage c) as [p |].
  - intros Hrun. apply _sample_with_ratio_Ret in Hrun
      as (idx & pv & ws1 & nv & ws2 & g1 & g2 & g3 & g4 & g5 &
          _ & Hlen & _ & [Hl1 _]%setitem_idx_Ret & _ & [Hl2 _]%setitem_idx_Ret & Hfin & _).
    assert (length (data a) = length ws2) as ->.
    { destruct (no_zero c); [| by rewrite Hfin].
      by apply while_resample_keep in Hfin as [? _]. }
    rewrite Hl2, Hl1, length_replicate. lia.
  - intros Hrun. apply _sample_weights_Ret in Hrun
      as (ws0 & g0 & (Hlen & Hl0 & _)%first_draw_Ret & Hfin & _).
    assert (length (data a) = length ws0) as ->.
    { destruct (no_zero c); [| by rewrite Hfin].
      by apply while_resample_keep in Hfin as [? _]. }
    lia.
Qed.

Lemma optimal_gene_length weights : length (optimal_gene weights) = length weights.
Proof. unfold optimal_gene, astype_int, gt_zero. by rewrite !length_fmap. Qed.

Lemma optimal_gene_lookup weights i w :
  weights !! i = Some w ->
  optimal_gene weights !! i = Some (if Num.gt0 w then 1%Z else 0%Z).
Proof.
  intros H. unfold optimal_gene, astype_int, gt_zero.
  by rewrite !list_lookup_fmap, H.
Qed.

(** C3: the gene vector of a generated instance has the length of the
    weight vector, which is the configured gene length; bit [i] is 1 exactly
    when weight [i] is positive and 0 exactly when it is not. *)
Theorem C3_gene_matches_weights fuel c g weights g' :
  sample fuel c g = (Ret weights, g') ->
  Z.of_nat (length (data weights)) = length_ c /\
  length (optimal_gene (data weights)) = length (data weights) /\
  forall i w, data weights !! i = Some w ->
    exists b, optimal_gene (data weights) !! i = Some b /\ is_bit b /\
      (b = 1%Z <-> (0 < w)%Q) /\ (b = 0%Z <-> (w <= 0)%Q).
Proof.
  intros Hrun. split; [by eapply sample_length |].
  split; [apply optimal_gene_length |].
  intros i w Hi. eexists. split; [by apply optimal_gene_lookup |].
  unfold is_bit. destruct (Num.gt0 w) eqn:Hw.
  - apply gt0_true in Hw. repeat split; auto; try done.
    intros Hle. exfalso. lra.
  - apply gt0_false in Hw. repeat split; auto; try done.
    intros Hlt. exfalso. lra.
Qed.






(* ===================================================================== *)
(** * Re-sampling of zeros (claims C5 and C9) *)
(* ===================================================================== *)



(** A position inside the mask takes one of the new values, when there is
    one value for each set bit. *)
Lemma setitem_mask_hit a mask vals i :
  length vals = length (filter (fun b => b = true) mask) ->
  i < length a -> mask !! i = Some true ->
  exists v, np.setitem_mask a mask vals !! i = Some v /\ v ∈ vals.
Proof.
  revert mask vals i. induction a as [| x a IH]; intros mask vals i Hlen Hi Hm.
  - simpl in Hi. lia.
  - destruct mask as [| b mask]; [done |].
    destruct b.
    + rewrite filter_cons_True in Hlen by done.
      destruct vals as [| v vals]; [done |]. simpl in Hlen.
      destruct i as [| i]; simpl in *.
      * exists v. split; [done | constructor].
      * destruct (IH mask vals i) as (v' & Hv' & Hin); [lia | lia | done |].
        exists v'. split; [done | by constructor].
    + rewrite filter_cons_False in Hlen by done.
      destruct i as [| i]; simpl in *; [done |].
      apply IH; [done | lia | done].
Qed.

(** C9: inside the loop of the ratio-constrained sampler the lower bound
    [min_w if mask.any() else 1] is always [min_w]: the loop is the loop of
    the unconstrained sampler, and in the discrete case every position that
    holds a zero is re-drawn from [[min_w, max_w + 1)]. *)
Theorem C9_lower_bound_is_min_w min_w max_w ws g ws' g' :
  resample_ratio min_w max_w true ws (np.eq_zero ws) g = (Ret ws', g') ->
  (forall discrete mask,
     np.any mask = true ->
     resample_ratio min_w max_w discrete ws mask g =
     resample min_w max_w discrete ws mask g) /\
  (forall fuel discrete,
     while_any_zero fuel (resample_ratio min_w max_w discrete) ws g =
     while_any_zero fuel (resample min_w max_w discrete) ws g) /\
  (forall i w, ws !! i = Some w -> (w == 0)%Q ->
     exists k : Z, ws' !! i = Some (inject_Z k) /\
       (Num.int_of_float min_w <= k < Num.int_of_float (max_w + 1))%Z).
Proof.
  intros Hstep. split; [| split].
  - intros discrete mask Hany. unfold resample_ratio, resample. by rewrite Hany.
  - intros fuel discrete. apply while_any_zero_ext. intros. apply resample_ratio_eq.
  - rewrite resample_ratio_eq in Hstep.
    apply resample_Ret in Hstep as (vals & -> & Hlen & Hall).
    intros i w Hi Hw.
    destruct (setitem_mask_hit ws (np.eq_zero ws) vals i) as (v & Hv & Hin).
    + rewrite Hlen. unfold np.sum_mask. lia.
    + by eapply lookup_lt_Some.
    + rewrite (eq_zero_lookup _ _ _ Hi). f_equal. by apply eq0_true.
    + rewrite Forall_forall in Hall. destruct (Hall v Hin) as (k & -> & Hk).
      exists k. split; [done | lia].
Qed.

(* ===================================================================== *)
(** * Termination of the re-sampling loop (claim C6) *)
(* ===================================================================== *)

Lemma drawn_range_ok min_w max_w discrete v :
  drawn min_w max_w discrete v -> range_ok min_w max_w discrete.
Proof. intros Hd ->. destruct Hd as (k & _ & Hk). lia. Qed.

Lemma drawn_draw1 min_w max_w discrete r :
  range_ok min_w max_w discrete -> drawn min_w max_w discrete (draw1 min_w max_w discrete r).
Proof.
  unfold range_ok, drawn, draw1. destruct discrete; intros Hok.
  - eexists. split; [done |]. apply bounded_range. auto.
  - by exists r.
Qed.

Lemma draw1_drawn min_w max_w discrete v :
  drawn min_w max_w discrete v -> exists r, v = draw1 min_w max_w discrete r.
Proof.
  unfold drawn, draw1. destruct discrete; [| done].
  intros (k & -> & Hk). exists (k - Num.int_of_float min_w)%Z. f_equal.
  unfold np.bounded. rewrite Z.mod_small by lia. lia.
Qed.

Lemma resample_run min_w max_w discrete ws mask g :
  range_ok min_w max_w discrete ->
  let n := length (filter (fun b => b = true) mask) in
  resample min_w max_w discrete ws mask g =
  (Ret (np.setitem_mask ws mask (draw1 min_w max_w discrete <$> (g <$> seq 0 n))),
   fun k => g (n + k)).
Proof.
  intros Hok n. unfold resample, draw1, np.sum_mask. fold n. destruct discrete.
  - unfold bind, np.randint. destruct (Z.eqb_spec (Z.of_nat n) 0) as [H0 | Hn].
    + assert (n = 0) as -> by lia. done.
    + destruct (Z.ltb_spec (Num.int_of_float (max_w + 1) - 1) (Num.int_of_float min_w));
        [specialize (Hok eq_refl); lia |].
      destruct (Z.ltb_spec (Z.of_nat n) 0); [lia |].
      unfold np.draws, ret, of_ints, bind. rewrite Nat2Z.id.
      by rewrite <- (list_fmap_compose (np.bounded _ _) inject_Z).
  - unfold bind, np.uniform. destruct (Z.ltb_spec (Z.of_nat n) 0); [lia |].
    unfold np.draws, ret, np.round, bind. rewrite Nat2Z.id.
    by rewrite <- (list_fmap_compose (np.uniform1 _ _) Num.round2).
Qed.

Lemma first_draw_run min_w max_w length discrete g :
  (0 <= length)%Z -> range_ok min_w max_w discrete ->
  let n := Z.to_nat length in
  first_draw min_w max_w length discrete g =
  (Ret (draw1 min_w max_w discrete <$> (g <$> seq 0 n)), fun k => g (n + k)).
Proof.
  intros Hlen Hok n. unfold first_draw, draw1. fold n. destruct discrete.
  - unfold bind, np.randint. destruct (Z.eqb_spec length 0) as [H0 | Hn].
    + assert (n = 0) as -> by lia. done.
    + destruct (Z.ltb_spec (Num.int_of_float (max_w + 1) - 1) (Num.int_of_float min_w));
        [specialize (Hok eq_refl); lia |].
      destruct (Z.ltb_spec length 0); [lia |].
      unfold np.draws, ret, of_ints, bind. fold n.
      by rewrite <- (list_fmap_compose (np.bounded _ _) inject_Z).
  - unfold bind, np.uniform. destruct (Z.ltb_spec length 0); [lia |].
    unfold np.draws, ret, np.round, bind. fold n.
    by rewrite <- (list_fmap_compose (np.uniform1 _ _) Num.round2).
Qed.

Lemma has_zero_any ws : has_zero ws -> np.any (np.eq_zero ws) = true.
Proof.
  intros (i & w & Hi & Hw). apply not_false_iff_true. intros Hnone.
  apply any_eq_zero_false in Hnone. rewrite Forall_lookup in Hnone.
  by apply (Hnone i w).
Qed.

(** A stream whose draws all give zero keeps the loop running. *)
Lemma while_zero_diverges min_w max_w discrete fuel ws g :
  range_ok min_w max_w discrete ->
  (forall k, draw1 min_w max_w discrete (g k) == 0)%Q ->
  has_zero ws ->
  (while_any_zero fuel (resample min_w max_w discrete) ws g).1 = Diverge.
Proof.
  intros Hok. revert ws g. induction fuel as [| fuel IH]; intros ws g Hg Hz; simpl.
  - by rewrite (has_zero_any _ Hz).
  - rewrite (has_zero_any _ Hz). unfold bind. rewrite resample_run by done.
    apply IH.
    + intros k. apply Hg.
    + destruct Hz as (i & w & Hi & Hw).
      destruct (lookup_lt_is_Some_2
                  (np.setitem_mask ws (np.eq_zero ws)
                     (draw1 min_w max_w discrete <$>
                        (g <$> seq 0 (length (filter (fun b => b = true) (np.eq_zero ws))))))
                  i) as [y Hy].
      { rewrite setitem_mask_length. by eapply lookup_lt_Some. }
      exists i, y. split; [done |].
      apply setitem_mask_lookup in Hy as [Hy | Hy].
      * congruence.
      * apply list_elem_of_fmap in Hy as (r & -> & Hr).
        apply list_elem_of_fmap in Hr as (k & -> & _). apply Hg.
Qed.

Lemma fmap_const_replicate {A B} (f : A -> B) (y : B) (l : list A) :
  (forall x, f x = y) -> f <$> l = replicate (length l) y.
Proof. intros Hf. induction l as [| x l IH]; csimpl; [done |]. by rewrite Hf, IH. Qed.

Lemma while_no_zero fuel body ws g :
  Forall (fun w => ~ (w == 0)%Q) ws -> while_any_zero fuel body ws g = (Ret ws, g).
Proof.
  intros Hnz. apply any_eq_zero_false in Hnz. destruct fuel; simpl; by rewrite Hnz.
Qed.

Lemma _sample_weights_run fuel min_w max_w length discrete g :
  (0 <= length)%Z -> range_ok min_w max_w discrete ->
  let n := Z.to_nat length in
  _sample_weights fuel min_w max_w length discrete true g =
  (ws <- while_any_zero fuel (resample min_w max_w discrete)
           (draw1 min_w max_w discrete <$> (g <$> seq 0 n)) ;;
   ret (NDArray (if discrete then int64 else float64) ws)) (fun k => g (n + k)).
Proof.
  intros Hlen Hok n.
  change (_sample_weights fuel min_w max_w length discrete true g) with
    ((weights <- first_draw min_w max_w length discrete ;;
      weights <- while_any_zero fuel (resample min_w max_w discrete) weights ;;
      ret (NDArray (if discrete then int64 else float64) weights)) g).
  unfold bind at 1. by rewrite first_draw_run.
Qed.

Lemma only_zero_draw1 min_w max_w discrete r :
  only_zero min_w max_w discrete -> (draw1 min_w max_w discrete r == 0)%Q.
Proof.
  intros [[v Hv] Hall]. apply Hall, drawn_draw1. by eapply drawn_range_ok.
Qed.

(** Without [no_zero] the unconstrained sampler returns for every stream
    of draws, when the length is not negative and the range not empty. *)
Lemma sample_weights_sampling_returns fuel dir min_w max_w length discrete fmt :
  (0 <= length)%Z -> range_ok min_w max_w discrete ->
  sampling_returns fuel (Config dir min_w max_w length discrete fmt false None).
Proof.
  intros Hlen Hok g. unfold sample. simpl.
  change (_sample_weights fuel min_w max_w length discrete false g) with
    ((weights <- first_draw min_w max_w length discrete ;;
      weights <- ret weights ;;
      ret (NDArray (if discrete then int64 else float64) weights)) g).
  unfold bind at 1. rewrite first_draw_run by done. by eexists _, _.
Qed.

Lemma sample_weights_diverges min_w max_w discrete length fuel g :
  range_ok min_w max_w discrete ->
  (forall k, draw1 min_w max_w discrete (g k) == 0)%Q ->
  (0 < length)%Z ->
  (_sample_weights fuel min_w max_w length discrete true g).1 = Diverge.
Proof.
  intros Hok Hg Hlen. rewrite _sample_weights_run by (done || lia).
  unfold bind.
  pose proof (while_zero_diverges min_w max_w discrete fuel
                (draw1 min_w max_w discrete <$> (g <$> seq 0 (Z.to_nat length)))
                (fun k => g (Z.to_nat length + k)) Hok) as Hdiv.
  destruct (while_any_zero _ _ _ _) as [o g1]. simpl in Hdiv.
  rewrite Hdiv; [done | |].
  - intros k. apply Hg.
  - destruct (Z.to_nat length) as [| n] eqn:Hn; [lia |].
    exists 0, (draw1 min_w max_w discrete (g 0)). split; [done | apply Hg].
Qed.

(** One pass of the loop creates no new zero position. *)
Lemma resample_shrinks min_w max_w discrete ws g ws' g' i w' :
  resample min_w max_w discrete ws (np.eq_zero ws) g = (Ret ws', g') ->
  ws' !! i = Some w' -> (w' == 0)%Q -> exists w, ws !! i = Some w /\ (w == 0)%Q.
Proof.
  intros Hstep Hi Hw'.
  destruct (lookup_lt_is_Some_2 ws i) as [w Hw].
  { rewrite <- (resample_length _ _ _ _ _ _ _ _ Hstep). by eapply lookup_lt_Some. }
  exists w. split; [done |].
  destruct (Qeq_dec w 0) as [| Hne]; [done |].
  pose proof (resample_keep _ _ _ _ _ _ _ _ _ Hstep Hw Hne). congruence.
Qed.

(** A stream that keeps drawing one non-zero value ends the sampling at
    once. *)
Lemma sample_weights_returns min_w max_w discrete length fuel r0 :
  range_ok min_w max_w discrete -> (0 <= length)%Z ->
  ~ (draw1 min_w max_w discrete r0 == 0)%Q ->
  (_sample_weights fuel min_w max_w length discrete true (fun _ => r0)).1 =
  Ret (NDArray (if discrete then int64 else float64)
         (replicate (Z.to_nat length) (draw1 min_w max_w discrete r0))).
Proof.
  intros Hok Hlen Hne. rewrite _sample_weights_run by done.
  rewrite (fmap_const_replicate (fun _ : nat => r0) r0) by done.
  rewrite length_seq, fmap_replicate.
  unfold bind. rewrite while_no_zero; [done |]. by apply Forall_replicate.
Qed.

(** C6: the re-sampling loop has no guard.  When the range admits only
    zero and there is a weight to draw, the unconstrained sampler with
    [no_zero] never returns, whatever the draws; the same holds for the
    loop started on any array that holds a zero.  For every range, a pass
    of the loop creates no new zero position; whether the sampler returns
    is left to the draws: when the range admits a non-zero value there are
    draws for which it returns, and when it admits zero there are draws for
    which it does not. *)
Theorem C6_unguarded_resampling min_w max_w discrete length fuel g :
  (only_zero min_w max_w discrete -> (0 < length)%Z ->
   (_sample_weights fuel min_w max_w length discrete true g).1 = Diverge /\
   forall ws, has_zero ws ->
     (while_any_zero fuel (resample min_w max_w discrete) ws g).1 = Diverge) /\
  (forall ws g1 ws' g2 i w',
     resample min_w max_w discrete ws (np.eq_zero ws) g1 = (Ret ws', g2) ->
     ws' !! i = Some w' -> (w' == 0)%Q -> exists w, ws !! i = Some w /\ (w == 0)%Q) /\
  (forall v0,
     drawn min_w max_w discrete v0 -> ~ (v0 == 0)%Q -> (0 <= length)%Z ->
     exists g0, forall fuel',
       (_sample_weights fuel' min_w max_w length discrete true g0).1 =
       Ret (NDArray (if discrete then int64 else float64)
              (replicate (Z.to_nat length) v0))) /\
  (forall v0,
     drawn min_w max_w discrete v0 -> (v0 == 0)%Q -> (0 < length)%Z ->
     exists g0, forall fuel',
       (_sample_weights fuel' min_w max_w length discrete true g0).1 = Diverge).
Proof.
  split; [| split; [| split]].
  - intros Hzero Hlen.
    assert (range_ok min_w max_w discrete) as Hok.
    { destruct Hzero as [[v Hv] _]. by eapply drawn_range_ok. }
    split.
    + apply sample_weights_diverges; [done | | done].
      intros k. by apply only_zero_draw1.
    + intros ws Hz. apply while_zero_diverges; [done | | done].
      intros k. by apply only_zero_draw1.
  - intros ws g1 ws' g2 i w'. apply resample_shrinks.
  - intros v0 Hv0 Hne Hlen.
    destruct (draw1_drawn _ _ _ _ Hv0) as [r0 ->].
    exists (fun _ => r0). intros fuel'.
    apply sample_weights_returns; [by eapply drawn_range_ok | done | done].
  - intros v0 Hv0 Hz Hlen.
    destruct (draw1_drawn _ _ _ _ Hv0) as [r0 ->].
    exists (fun _ => r0). intros fuel'.
    apply sample_weights_diverges; [by eapply drawn_range_ok | done | done].
Qed.

(* ===================================================================== *)
(** * Exceptions of the ratio-constrained sampler (claim C10) *)
(* ===================================================================== *)










(* ===================================================================== *)
(** * Names of the per-instance files (claim C7) *)
(* ===================================================================== *)

Lemma string_length_app (s t : string) :
  String.length (s +:+ t) = String.length s + String.length t.
Proof. induction s as [| a s IH]; simpl; [done | by rewrite IH]. Qed.

Lemma string_app_inj_r (s1 s2 t : string) : s1 +:+ t = s2 +:+ t -> s1 = s2.
Proof.
  revert s2. induction s1 as [| a s1 IH]; intros [| b s2] H.
  - done.
  - apply (f_equal String.length) in H.
    rewrite !string_length_app in H. simpl in H. lia.
  - apply (f_equal String.length) in H.
    rewrite !string_length_app in H. simpl in H. lia.
  - change (String a (s1 +:+ t) = String b (s2 +:+ t)) in H.
    inversion H; subst. f_equal. by apply IH.
Qed.

Lemma instance_name_inj i j : instance_name i = instance_name j -> i = j.
Proof.
  unfold instance_name. intros H. apply (inj _) in H.
  apply string_app_inj_r in H. by apply (inj pretty) in H.
Qed.

Lemma instance_path_inj dir i j : instance_path dir i = instance_path dir j -> i = j.
Proof.
  unfold instance_path, os.path_join. intros H. apply (inj _) in H.
  by apply instance_name_inj.
Qed.

Lemma overview_path_not_instance str_float c i :
  overview_path str_float c <> instance_path (output_dir c) i.
Proof.
  unfold overview_path, instance_path, os.path_join. intros H. apply (inj _) in H.
  unfold overview_name, instance_name in H. discriminate H.
Qed.

(** As many files as numbers below [i] are present. *)
Lemma present_below_size dir (fs : gmap string string) i :
  (forall j, j < i -> is_Some (fs !! instance_path dir j)) -> i <= size fs.
Proof.
  revert fs. induction i as [| i IH]; intros fs Hall; [lia |].
  assert (i <= size (delete (instance_path dir i) fs)) as Hle.
  { apply IH. intros j Hj. rewrite lookup_delete_ne.
    - apply Hall. lia.
    - intros Heq%instance_path_inj. lia. }
  rewrite map_size_delete_Some in Hle by (apply Hall; lia).
  assert (size fs <> 0); [| lia].
  intros Hsz%map_size_empty_inv. destruct (Hall i) as [x Hx]; [lia |].
  by rewrite Hsz, lookup_empty in Hx.
Qed.

Lemma scan_index_Ret fuel dir i w n w' :
  scan_index fuel dir i w = (Ret n, w') ->
  w' = w /\ i <= n /\ w_fs w !! instance_path dir n = None /\
  forall j, i <= j < n -> is_Some (w_fs w !! instance_path dir j).
Proof.
  revert i. induction fuel as [| fuel IH]; intros i; simpl; unfold bind, os.path_exists;
    fold (instance_path dir i); case_bool_decide as Hi; try done.
  - intros [= <- <-]. repeat split; [lia | | intros; lia].
    by apply eq_None_not_Some.
  - intros (-> & Hle & Hn & Hall)%IH. repeat split; [lia | done |].
    intros j Hj. destruct (decide (j = i)) as [-> | ?]; [done | apply Hall; lia].
  - intros [= <- <-]. repeat split; [lia | | intros; lia].
    by apply eq_None_not_Some.
Qed.

(** With fuel beyond the number of files the scan returns. *)
Lemma scan_index_total fuel dir i w :
  (forall j, j < i -> is_Some (w_fs w !! instance_path dir j)) ->
  size (w_fs w) < i + fuel ->
  exists n, scan_index fuel dir i w = (Ret n, w).
Proof.
  revert i. induction fuel as [| fuel IH]; intros i Hall Hsz;
    simpl; unfold bind, os.path_exists; fold (instance_path dir i);
    case_bool_decide as Hi; try by eexists.
  - assert (S i <= size (w_fs w)); [| lia].
    apply present_below_size with dir. intros j Hj.
    destruct (decide (j = i)) as [-> | ?]; [done | apply Hall; lia].
  - apply IH; [| lia]. intros j Hj.
    destruct (decide (j = i)) as [-> | ?]; [done | apply Hall; lia].
Qed.

(** Under the numbering invariant the scan returns the next number. *)
Lemma scan_index_numbered fuel dir i k w :
  numbered dir (w_fs w) k -> i <= k -> k - i <= fuel ->
  scan_index fuel dir i w = (Ret k, w).
Proof.
  intros Hnum. revert i. induction fuel as [| fuel IH]; intros i Hik Hfuel;
    simpl; unfold bind, os.path_exists; fold (instance_path dir i);
    case_bool_decide as Hi.
  - apply Hnum in Hi. lia.
  - assert (i = k) as ->; [| done].
    destruct (decide (i < k)) as [Hlt | ?]; [| lia]. by apply Hnum in Hlt.
  - apply Hnum in Hi. apply IH; lia.
  - assert (i = k) as ->; [| done].
    destruct (decide (i < k)) as [Hlt | ?]; [| lia]. by apply Hnum in Hlt.
Qed.

Section GeneratorFacts.

Variable str_float : Q -> string.

Lemma generate_one_unfold fuel c w :
  generate_one str_float fuel c w =
  (weights <- with_rng (sample fuel c) ;;
   write_single str_float fuel c weights ;;;
   write_overview str_float c weights ;;;
   print (progress str_float c)) w.
Proof. reflexivity. Qed.

Lemma with_rng_fs {A} (m : np.R A) w : w_fs (with_rng m w).2 = w_fs w.
Proof. unfold with_rng, zoom. by destruct (m (w_rng w)). Qed.

Lemma write_overview_run c weights w :
  exists w', write_overview str_float c weights w = (Ret tt, w') /\
    (forall p, is_Some (w_fs w' !! p) <-> is_Some (w_fs w !! p)) /\
    (forall p, p <> overview_path str_float c -> w_fs w' !! p = w_fs w !! p).
Proof.
  unfold write_overview. destruct (use_overview c).
  - eexists. split; [reflexivity |]. simpl. split.
    + intros p. by rewrite !lookup_alter_is_Some.
    + intros p Hp. by rewrite !lookup_alter_ne.
  - eexists. split; [reflexivity |]. done.
Qed.

(** The per-instance file goes to the least free number; no other
    instance file changes. *)
Lemma write_single_Ret fuel c weights w w' :
  use_single c = true ->
  write_single str_float fuel c weights w = (Ret tt, w') ->
  exists n, least_free (output_dir c) (w_fs w) n /\
    w_fs w' = <[instance_path (output_dir c) n :=
                  String.concat "" (csv_writes str_float c weights)]> (w_fs w).
Proof.
  unfold write_single, _next_available_index. intros ->.
  intros (n & w1 & (-> & _ & Hfree & Hbelow)%scan_index_Ret & Hwrite)%bind_Ret.
  exists n. split.
  - split; [done |]. intros j Hj. apply Hbelow. lia.
  - unfold os.write_file in Hwrite. by inversion Hwrite.
Qed.

Lemma numbered_insert dir fs k content :
  numbered dir fs k -> numbered dir (<[instance_path dir k := content]> fs) (S k).
Proof.
  intros Hnum i. rewrite lookup_insert_is_Some', (Hnum i). split.
  - intros [Heq%instance_path_inj | ?]; lia.
  - intros Hi. destruct (decide (i = k)) as [-> | ?]; [by left | right; lia].
Qed.

Lemma numbered_least_free dir fs k : numbered dir fs k -> least_free dir fs k.
Proof.
  intros Hnum. split.
  - apply eq_None_not_Some. rewrite (Hnum k). lia.
  - intros j Hj. by apply Hnum.
Qed.

Lemma write_single_numbered fuel c weights w k :
  numbered (output_dir c) (w_fs w) k -> k <= fuel ->
  exists w', write_single str_float fuel c weights w = (Ret tt, w') /\
    numbered (output_dir c) (w_fs w') (k + files_per_instance c).
Proof.
  intros Hnum Hfuel. unfold write_single, files_per_instance, _next_available_index.
  destruct (use_single c).
  - unfold bind. rewrite (scan_index_numbered fuel _ 0 k) by (done || lia).
    eexists. split; [reflexivity |]. simpl.
    replace (k + 1) with (S k) by lia. by apply numbered_insert.
  - eexists. split; [reflexivity |]. by rewrite Nat.add_0_r.
Qed.

Lemma numbered_same dir fs fs' k :
  (forall p, is_Some (fs' !! p) <-> is_Some (fs !! p)) ->
  numbered dir fs k -> numbered dir fs' k.
Proof. intros Hsame Hnum i. rewrite Hsame. apply Hnum. Qed.

Lemma generate_one_numbered fuel c w k :
  numbered (output_dir c) (w_fs w) k -> k <= fuel ->
  exists k', numbered (output_dir c) (w_fs (generate_one str_float fuel c w).2) k' /\
    k <= k' <= k + files_per_instance c /\
    ((generate_one str_float fuel c w).1 = Ret tt -> k' = k + files_per_instance c).
Proof.
  intros Hnum Hfuel. rewrite generate_one_unfold. unfold bind.
  pose proof (with_rng_fs (sample fuel c) w) as Hfs.
  destruct (with_rng (sample fuel c) w) as [[weights | e |] w1]; simpl in Hfs.
  - rewrite <- Hfs in Hnum.
    destruct (write_single_numbered fuel c weights w1 k Hnum Hfuel) as (w2 & Hw2 & Hnum2).
    rewrite Hw2.
    destruct (write_overview_run c weights w2) as (w3 & Hw3 & Hsame & _).
    rewrite Hw3. simpl.
    exists (k + files_per_instance c). split; [| lia].
    by eapply numbered_same.
  - exists k. simpl. rewrite Hfs. split; [done |]. split; [lia | done].
  - exists k. simpl. rewrite Hfs. split; [done |]. split; [lia | done].
Qed.

Lemma for_each_numbered fuel c w k n (l : list nat) :
  length l = n ->
  numbered (output_dir c) (w_fs w) k -> k + n * files_per_instance c <= fuel ->
  let r := for_each l (fun _ => generate_one str_float fuel c) w in
  exists k', numbered (output_dir c) (w_fs r.2) k' /\
    k <= k' <= k + n * files_per_instance c /\
    (r.1 = Ret tt -> k' = k + n * files_per_instance c).
Proof.
  revert n w k. induction l as [| x l IH]; intros n w k <- Hnum Hfuel; simpl.
  - exists k. split; [done |]. lia.
  - unfold bind.
    destruct (generate_one_numbered fuel c w k Hnum) as (k1 & Hnum1 & Hk1 & Hret1);
      [simpl in Hfuel; lia |].
    destruct (generate_one str_float fuel c w) as [[[] | e |] w1]; simpl in *.
    + specialize (Hret1 eq_refl). subst k1.
      destruct (IH (length l) w1 _ eq_refl Hnum1) as (k2 & Hnum2 & Hk2 & Hret2); [lia |].
      exists k2. split; [done |]. split; [lia |]. intros Hr. specialize (Hret2 Hr). lia.
    + exists k1. split; [done |]. split; [lia | done].
    + exists k1. split; [done |]. split; [lia | done].
Qed.

Lemma generate_cell_numbered fuel num_instances c w k :
  let n := Z.to_nat num_instances in
  numbered (output_dir c) (w_fs w) k -> k + n * files_per_instance c <= fuel ->
  let r := generate_cell str_float fuel num_instances c w in
  exists k', numbered (output_dir c) (w_fs r.2) k' /\
    k <= k' <= k + n * files_per_instance c /\
    (r.1 = Ret tt -> k' = k + n * files_per_instance c).
Proof.
  intros n Hnum Hfuel. unfold generate_cell, bind.
  set (w1 := if use_overview c
             then set_fs (<[overview_path str_float c := ""]> (w_fs w)) w else w).
  assert ((if use_overview c then os.write_file (overview_path str_float c) "" else ret tt) w
          = (Ret tt, w1)) as ->.
  { unfold w1. by destruct (use_overview c). }
  apply for_each_numbered; [by rewrite length_seq | | done].
  unfold w1. destruct (use_overview c); [| done]. simpl.
  intros i. rewrite lookup_insert_ne; [apply Hnum |].
  apply overview_path_not_instance.
Qed.

Lemma cells_numbered fuel num_instances dir discrete fmt no_zero pos_percentage
    (cells : list (Q * Q * Z)) w k :
  let n := Z.to_nat num_instances in
  let per := if ((fmt =? 1)%Z || (fmt =? 2)%Z) then 1 else 0 in
  numbered dir (w_fs w) k -> k + length cells * (n * per) <= fuel ->
  let r := for_each cells (fun '(min_w, max_w, length) =>
             generate_cell str_float fuel num_instances
               (Config dir min_w max_w length discrete fmt no_zero pos_percentage)) w in
  exists k', numbered dir (w_fs r.2) k' /\
    k <= k' <= k + length cells * (n * per) /\
    (r.1 = Ret tt -> k' = k + length cells * (n * per)).
Proof.
  intros n per. revert w k.
  induction cells as [| [[a b] l] cells IH]; intros w k Hnum Hfuel; simpl.
  - exists k. split; [done |]. lia.
  - unfold bind.
    destruct (generate_cell_numbered fuel num_instances
                (Config dir a b l discrete fmt no_zero pos_percentage) w k Hnum)
      as (k1 & Hnum1 & Hk1 & Hret1).
    { simpl in Hfuel. unfold files_per_instance, use_single. simpl. fold per. fold n. lia. }
    unfold files_per_instance, use_single in Hk1, Hret1. simpl in Hnum1, Hk1, Hret1.
    fold per in Hk1, Hret1. fold n in Hk1, Hret1.
    destruct (generate_cell str_float fuel num_instances _ w) as [[[] | e |] w1]; simpl in *.
    + specialize (Hret1 eq_refl). subst k1.
      destruct (IH w1 _ Hnum1) as (k2 & Hnum2 & Hk2 & Hret2); [lia |].
      exists k2. split; [done |]. split; [lia |]. intros Hr. specialize (Hret2 Hr). lia.
    + exists k1. split; [done |]. split; [lia | done].
    + exists k1. split; [done |]. split; [lia | done].
Qed.

Lemma makedirs_state dir w o w' : os.makedirs dir w = (o, w') -> w' = w.
Proof.
  unfold os.makedirs. destruct (decide _); [by intros [= _ <-] |].
  case_bool_decide; by intros [= _ <-].
Qed.

Lemma product3_length {A B C} (l1 : list A) (l2 : list B) (l3 : list C) :
  length (product3 l1 l2 l3) = length l1 * (length l2 * length l3).
Proof.
  unfold product3. induction l1 as [| a l1 IH]; simpl; [done |].
  rewrite length_app, IH. f_equal.
  clear. induction l2 as [| b l2 IH]; simpl; [done |].
  by rewrite length_app, length_map, IH.
Qed.

Lemma generate_instances_numbered fuel dir num_instances mins maxs lens
    discrete fmt no_zero pos_percentage w :
  let total := length (product3 mins maxs lens) * Z.to_nat num_instances in
  numbered dir (w_fs w) 0 -> (fmt = 1 \/ fmt = 2)%Z -> total <= fuel ->
  let r := generate_instances str_float fuel dir num_instances mins maxs lens
             discrete fmt no_zero pos_percentage w in
  exists k, numbered dir (w_fs r.2) k /\ k <= total /\ (r.1 = Ret tt -> k = total).
Proof.
  intros total Hnum Hfmt Hfuel. unfold generate_instances, bind.
  destruct (os.makedirs dir w) as [o w0] eqn:Hmk.
  apply makedirs_state in Hmk as ->.
  destruct o as [[] | e |]; simpl;
    [| exists 0; split; [done |]; split; [lia | done] ..].
  destruct (cells_numbered fuel num_instances dir discrete fmt no_zero pos_percentage
              (product3 mins maxs lens) w 0 Hnum) as (k & Hk & Hle & Hret).
  { destruct Hfmt as [-> | ->]; simpl; unfold total in Hfuel; lia. }
  assert ((if ((fmt =? 1)%Z || (fmt =? 2)%Z) then 1 else 0) = 1) as Hper
    by (by destruct Hfmt as [-> | ->]).
  rewrite Hper in Hle, Hret.
  exists k. split; [done |]. unfold total. split; [lia |].
  intros Hr. specialize (Hret Hr). lia.
Qed.

Lemma only_adds_refl dir fs : only_adds_instances dir fs fs.
Proof. intros p Hp. by left. Qed.

Lemma only_adds_trans dir fs1 fs2 fs3 :
  only_adds_instances dir fs1 fs2 -> only_adds_instances dir fs2 fs3 ->
  only_adds_instances dir fs1 fs3.
Proof.
  intros H12 H23 p Hp. destruct (H23 p Hp) as [H2 | H2]; [by apply H12 | by right].
Qed.

Lemma scan_index_state fuel dir i w o w' : scan_index fuel dir i w = (o, w') -> w' = w.
Proof.
  revert i. induction fuel as [| fuel IH]; intros i; simpl; unfold bind, os.path_exists;
    case_bool_decide; try (by intros [= _ <-]).
  apply IH.
Qed.

Lemma write_single_adds fuel c weights w :
  only_adds_instances (output_dir c) (w_fs w) (w_fs (write_single str_float fuel c weights w).2).
Proof.
  unfold write_single, _next_available_index. destruct (use_single c); [| apply only_adds_refl].
  unfold bind. destruct (scan_index fuel (output_dir c) 0 w) as [o w1] eqn:Hscan.
  apply scan_index_state in Hscan as ->.
  destruct o as [n | e |]; simpl; try apply only_adds_refl.
  intros p [Heq | Hp]%lookup_insert_is_Some'; [right | by left].
  by exists n.
Qed.

Lemma generate_one_adds fuel c w :
  use_overview c = false ->
  only_adds_instances (output_dir c) (w_fs w) (w_fs (generate_one str_float fuel c w).2).
Proof.
  intros Hov. rewrite generate_one_unfold. unfold bind.
  pose proof (with_rng_fs (sample fuel c) w) as Hfs.
  destruct (with_rng (sample fuel c) w) as [[weights | e |] w1]; simpl in Hfs;
    rewrite <- Hfs; try apply only_adds_refl.
  pose proof (write_single_adds fuel c weights w1) as Hadd.
  destruct (write_single str_float fuel c weights w1) as [[[] | e |] w2]; simpl in Hadd; try done.
  unfold write_overview. rewrite Hov. done.
Qed.

Lemma for_each_adds fuel c (l : list nat) w :
  use_overview c = false ->
  only_adds_instances (output_dir c) (w_fs w)
    (w_fs (for_each l (fun _ => generate_one str_float fuel c) w).2).
Proof.
  intros Hov. revert w. induction l as [| x l IH]; intros w; simpl; [apply only_adds_refl |].
  unfold bind. pose proof (generate_one_adds fuel c w Hov) as H1.
  destruct (generate_one str_float fuel c w) as [[[] | e |] w1]; simpl in H1; try done.
  eapply only_adds_trans; [exact H1 | apply IH].
Qed.

Lemma cells_adds fuel num_instances dir discrete fmt no_zero pos_percentage
    (cells : list (Q * Q * Z)) w :
  (fmt =? 0)%Z || (fmt =? 2)%Z = false ->
  only_adds_instances dir (w_fs w)
    (w_fs (for_each cells (fun '(min_w, max_w, length) =>
             generate_cell str_float fuel num_instances
               (Config dir min_w max_w length discrete fmt no_zero pos_percentage)) w).2).
Proof.
  intros Hov. revert w.
  induction cells as [| [[a b] l] cells IH]; intros w; simpl; [apply only_adds_refl |].
  unfold bind.
  assert (only_adds_instances dir (w_fs w)
            (w_fs (generate_cell str_float fuel num_instances
                     (Config dir a b l discrete fmt no_zero pos_percentage) w).2)) as H1.
  { unfold generate_cell, bind, use_overview. simpl. rewrite Hov. simpl.
    by apply (for_each_adds fuel (Config dir a b l discrete fmt no_zero pos_percentage)). }
  destruct (generate_cell str_float fuel num_instances _ w) as [[[] | e |] w1];
    simpl in H1; try done.
  eapply only_adds_trans; [exact H1 | apply IH].
Qed.

Lemma generate_instances_adds fuel dir num_instances mins maxs lens
    discrete no_zero pos_percentage w :
  only_adds_instances dir (w_fs w)
    (w_fs (generate_instances str_float fuel dir num_instances mins maxs lens
             discrete 1 no_zero pos_percentage w).2).
Proof.
  unfold generate_instances, bind.
  destruct (os.makedirs dir w) as [o w0] eqn:Hmk.
  apply makedirs_state in Hmk as ->.
  destruct o as [[] | e |]; simpl; try apply only_adds_refl.
  by apply cells_adds.
Qed.

(** When sampling returns and the fuel covers the scan, the loop body
    returns. *)
Lemma generate_one_returns fuel c w k :
  sampling_returns fuel c ->
  numbered (output_dir c) (w_fs w) k -> k <= fuel ->
  (generate_one str_float fuel c w).1 = Ret tt.
Proof.
  intros Hs Hnum Hfuel. rewrite generate_one_unfold. unfold bind.
  destruct (Hs (w_rng w)) as (a & g' & Ha).
  assert (with_rng (sample fuel c) w = (Ret a, set_rng g' w)) as ->.
  { unfold with_rng, zoom. by rewrite Ha. }
  destruct (write_single_numbered fuel c a (set_rng g' w) k Hnum Hfuel) as (w2 & -> & _).
  by destruct (write_overview_run c a w2) as (w3 & -> & _).
Qed.

Lemma for_each_returns fuel c w k (l : list nat) :
  sampling_returns fuel c ->
  numbered (output_dir c) (w_fs w) k -> k + length l * files_per_instance c <= fuel ->
  (for_each l (fun _ => generate_one str_float fuel c) w).1 = Ret tt.
Proof.
  intros Hs. revert w k. induction l as [| x l IH]; intros w k Hnum Hfuel; simpl; [done |].
  simpl in Hfuel. unfold bind.
  pose proof (generate_one_returns fuel c w k Hs Hnum ltac:(lia)) as Hret.
  destruct (generate_one_numbered fuel c w k Hnum ltac:(lia)) as (k1 & Hnum1 & _ & Hk1).
  destruct (generate_one str_float fuel c w) as [o w1]. simpl in *. subst o.
  rewrite (Hk1 eq_refl) in Hnum1. eapply IH; [exact Hnum1 | lia].
Qed.

Lemma generate_cell_returns fuel num_instances c w k :
  sampling_returns fuel c ->
  numbered (output_dir c) (w_fs w) k ->
  k + Z.to_nat num_instances * files_per_instance c <= fuel ->
  (generate_cell str_float fuel num_instances c w).1 = Ret tt.
Proof.
  intros Hs Hnum Hfuel. unfold generate_cell, bind.
  set (w1 := if use_overview c
             then set_fs (<[overview_path str_float c := ""]> (w_fs w)) w else w).
  assert ((if use_overview c then os.write_file (overview_path str_float c) "" else ret tt) w
          = (Ret tt, w1)) as ->.
  { unfold w1. by destruct (use_overview c). }
  apply (for_each_returns fuel c w1 k); [done | | by rewrite length_seq].
  unfold w1. destruct (use_overview c); [| done]. simpl.
  intros i. rewrite lookup_insert_ne; [apply Hnum |].
  apply overview_path_not_instance.
Qed.

Lemma cells_returns fuel num_instances dir discrete fmt no_zero pos_percentage
    (cells : list (Q * Q * Z)) w k :
  let n := Z.to_nat num_instances in
  let per := if ((fmt =? 1)%Z || (fmt =? 2)%Z) then 1 else 0 in
  Forall (fun '(a, b, l) =>
            sampling_returns fuel (Config dir a b l discrete fmt no_zero pos_percentage))
    cells ->
  numbered dir (w_fs w) k -> k + length cells * (n * per) <= fuel ->
  (for_each cells (fun '(min_w, max_w, length) =>
     generate_cell str_float fuel num_instances
       (Config dir min_w max_w length discrete fmt no_zero pos_percentage)) w).1 = Ret tt.
Proof.
  intros n per Hs. revert w k.
  induction Hs as [| [[a b] l] cells Hs1 _ IH]; intros w k Hnum Hfuel; simpl; [done |].
  simpl in Hfuel. unfold bind.
  set (c := Config dir a b l discrete fmt no_zero pos_percentage) in *.
  assert (files_per_instance c = per) as Hper by done.
  pose proof (generate_cell_returns fuel num_instances c w k Hs1 Hnum) as Hret.
  destruct (generate_cell_numbered fuel num_instances c w k Hnum)
    as (k1 & Hnum1 & _ & Hk1); [rewrite Hper; fold n; lia |].
  destruct (generate_cell str_float fuel num_instances c w) as [o w1]. simpl in *.
  rewrite Hret by (rewrite Hper; fold n; lia).
  rewrite Hret in Hk1 by (rewrite Hper; fold n; lia).
  rewrite (Hk1 eq_refl), Hper in Hnum1. eapply IH; [exact Hnum1 |]. fold n. lia.
Qed.

Lemma generate_instances_returns fuel dir num_instances mins maxs lens
    discrete fmt no_zero pos_percentage w :
  let total := length (product3 mins maxs lens) * Z.to_nat num_instances in
  dir <> "" -> w_fs w !! dir = None ->
  Forall (fun '(a, b, l) =>
            sampling_returns fuel (Config dir a b l discrete fmt no_zero pos_percentage))
    (product3 mins maxs lens) ->
  numbered dir (w_fs w) 0 -> total <= fuel ->
  (generate_instances str_float fuel dir num_instances mins maxs lens
     discrete fmt no_zero pos_percentage w).1 = Ret tt.
Proof.
  intros total Hdir Hfile Hs Hnum Hfuel. unfold generate_instances, bind, os.makedirs.
  rewrite decide_False by done. rewrite bool_decide_eq_false_2.
  - eapply cells_returns; [done | exact Hnum |].
    destruct ((fmt =? 1)%Z || (fmt =? 2)%Z); unfold total in Hfuel; lia.
  - rewrite Hfile. by intros [? ?].
Qed.

Lemma generate_one_Ret fuel c w w' :
  use_single c = true ->
  generate_one str_float fuel c w = (Ret tt, w') ->
  exists n, least_free (output_dir c) (w_fs w) n /\
    is_Some (w_fs w' !! instance_path (output_dir c) n) /\
    forall j, j <> n ->
      w_fs w' !! instance_path (output_dir c) j = w_fs w !! instance_path (output_dir c) j.
Proof.
  intros Hsingle. rewrite generate_one_unfold. intros Hrun.
  apply bind_Ret in Hrun as (weights & w1 & Hsample & Hrun).
  apply bind_Ret in Hrun as ([] & w2 & Hwrite & Hrun).
  apply bind_Ret in Hrun as ([] & w3 & Hover & Hrun).
  pose proof (with_rng_fs (sample fuel c) w) as Hfs. rewrite Hsample in Hfs. simpl in Hfs.
  apply write_single_Ret in Hwrite as (n & Hfree & Hw2); [| done].
  destruct (write_overview_run c weights w2) as (w3' & Hw3 & _ & Hother).
  rewrite Hover in Hw3. inversion Hw3; subst w3'. clear Hw3.
  unfold print in Hrun. inversion Hrun; subst w'. simpl.
  exists n. rewrite <- Hfs. split; [done |]. split.
  - rewrite Hother by (symmetry; apply overview_path_not_instance).
    rewrite Hw2, lookup_insert_eq. by eexists.
  - intros j Hj. rewrite Hother by (symmetry; apply overview_path_not_instance).
    rewrite Hw2, lookup_insert_ne; [done |].
    intros Heq%instance_path_inj. done.
Qed.

(** C7: the scan returns the least number [N] for which [instance_N.csv]
    does not exist; a per-instance file is written at that number and
    leaves the other instance files alone; a run in a directory without
    instance files leaves exactly the instance files numbered below the
    number of instances it completed, all of them when it returns, and with
    the per-instance format it creates no other file; the run returns when
    the directory can be made, sampling returns and the fuel covers the
    number of instances. *)
Theorem C7_instance_file_names fuel dir :
  (forall w, size (w_fs w) < fuel ->
     exists n, _next_available_index fuel dir w = (Ret n, w) /\
       least_free dir (w_fs w) n) /\
  (forall c w w',
     output_dir c = dir -> use_single c = true ->
     generate_one str_float fuel c w = (Ret tt, w') ->
     exists n, least_free dir (w_fs w) n /\
       is_Some (w_fs w' !! instance_path dir n) /\
       forall j, j <> n -> w_fs w' !! instance_path dir j = w_fs w !! instance_path dir j) /\
  (forall num_instances mins maxs lens discrete fmt no_zero pos_percentage w,
     let total := length (product3 mins maxs lens) * Z.to_nat num_instances in
     numbered dir (w_fs w) 0 -> (fmt = 1 \/ fmt = 2)%Z -> total <= fuel ->
     let r := generate_instances str_float fuel dir num_instances mins maxs lens
                discrete fmt no_zero pos_percentage w in
     exists k, numbered dir (w_fs r.2) k /\ k <= total /\ (r.1 = Ret tt -> k = total) /\
       (fmt = 1%Z -> forall p, is_Some (w_fs r.2 !! p) ->
          is_Some (w_fs w !! p) \/ exists i, i < k /\ p = instance_path dir i)) /\
  (forall num_instances mins maxs lens discrete fmt no_zero pos_percentage w,
     let total := length (product3 mins maxs lens) * Z.to_nat num_instances in
     dir <> "" -> w_fs w !! dir = None ->
     Forall (fun '(a, b, l) =>
               sampling_returns fuel (Config dir a b l discrete fmt no_zero pos_percentage))
       (product3 mins maxs lens) ->
     numbered dir (w_fs w) 0 -> total <= fuel ->
     (generate_instances str_float fuel dir num_instances mins maxs lens
        discrete fmt no_zero pos_percentage w).1 = Ret tt).
Proof.
  split; [| split; [| split]]; cycle 3.
  { intros. by apply generate_instances_returns. }
  - intros w Hsz. unfold _next_available_index.
    destruct (scan_index_total fuel dir 0 w) as [n Hn]; [intros; lia | lia |].
    exists n. split; [done |].
    apply scan_index_Ret in Hn as (_ & _ & Hfree & Hbelow).
    split; [done |]. intros j Hj. apply Hbelow. lia.
  - intros c w w' <-. apply generate_one_Ret.
  - intros num_instances mins maxs lens discrete fmt no_zero pos_percentage w
      total Hnum Hfmt Hfuel r.
    destruct (generate_instances_numbered fuel dir num_instances mins maxs lens
                discrete fmt no_zero pos_percentage w Hnum Hfmt Hfuel)
      as (k & Hk & Hle & Hret).
    exists k. repeat (split; [done |]).
    intros -> p Hp.
    destruct (generate_instances_adds fuel dir num_instances mins maxs lens
                discrete no_zero pos_percentage w p Hp) as [? | [i ->]]; [by left |].
    right. exists i. split; [| done]. by apply Hk.
Qed.


End GeneratorFacts.

(* ===================================================================== *)
(** * The per-instance file (claim C8) *)
(* ===================================================================== *)



(* ===================================================================== *)
(** * The range of the weights (claim C4) *)
(* ===================================================================== *)

Lemma rint_floor (q : Q) :
  Num.rint q = Qfloor q \/
  (Num.rint q = (Qfloor q + 1)%Z /\ (inject_Z (Qfloor q) < q)%Q).
Proof.
  unfold Num.rint. destruct (Qcompare_spec (q - inject_Z (Qfloor q)) (1 # 2)) as [H | H | H].
  - destruct (Z.even (Qfloor q)); [by left |]. right. split; [done | lra].
  - by left.
  - right. split; [done | lra].
Qed.

Lemma rint_lower (a : Z) (q : Q) : (inject_Z a <= q)%Q -> (a <= Num.rint q)%Z.
Proof.
  intros Hq. apply Qfloor_resp_le in Hq. rewrite Qfloor_Z in Hq.
  destruct (rint_floor q) as [-> | [-> _]]; lia.
Qed.

Lemma rint_upper (b : Z) (q : Q) : (q <= inject_Z b)%Q -> (Num.rint q <= b)%Z.
Proof.
  intros Hq. pose proof (Qfloor_le q) as Hfl.
  destruct (rint_floor q) as [-> | [-> Hlt]].
  - rewrite Zle_Qle. lra.
  - assert (inject_Z (Qfloor q) < inject_Z b)%Q as H by lra.
    rewrite <- Zlt_Qlt in H. lia.
Qed.















(* ===================================================================== *)
(** * The number of positive weights (claim C2) *)
(* ===================================================================== *)












(* ===================================================================== *)
(** * The model on concrete inputs *)
(* ===================================================================== *)

Example rint_half_even :
  Num.rint (5 # 2) = 2%Z /\ Num.rint (7 # 2) = 4%Z /\ Num.rint (-5 # 2) = (-2)%Z /\
  Num.rint (13 # 5) = 3%Z.
Proof. by vm_compute. Qed.

Example round2_small : (Num.round2 (2 # 1000) == 0)%Q /\ (Num.round2 (1234 # 1000) == 123 # 100)%Q.
Proof. by vm_compute. Qed.

Example int_of_float_truncates :
  Num.int_of_float (-5 # 2) = (-2)%Z /\ Num.int_of_float (5 # 2) = 2%Z.
Proof. by vm_compute. Qed.

Example pos_count_70_of_10 :
  pos_count 70 10 = 7%Z /\ pos_count 35 10 = 4%Z /\ pos_count 25 10 = 2%Z.
Proof. by vm_compute. Qed.

(** An empty range raises, unless no sample is requested. *)
Example randint_empty_range (g : np.rng) :
  (np.randint 3 0 2 g).1 = Raise ValueError /\ (np.randint 3 0 0 g).1 = Ret [].
Proof. done. Qed.

Example randint_values :
  (np.randint (-10) 11 5 c8_draws).1 = Ret [-7; -6; 0; -10; -3]%Z.
Proof. by vm_compute. Qed.

Example slices_from_the_end :
  np.slice_to [0; 1; 2; 3] (-1) = [0; 1; 2] /\ np.slice_from [0; 1; 2; 3] (-1) = [3] /\
  np.slice_to [0; 1; 2; 3] 7 = [0; 1; 2; 3] /\ np.slice_from [0; 1; 2; 3] 7 = [].
Proof. done. Qed.

Example setitem_mask_in_order :
  np.setitem_mask [0; 5; 0; 7]%Q (np.eq_zero [0; 5; 0; 7]%Q) [1; 2]%Q = [1; 5; 2; 7]%Q.
Proof. done. Qed.

Example permutation_of_four :
  (np.permutation 4 (fun n => nth n [2; 0; 1; 0]%Z 0%Z)).1 = Ret [2; 0; 3; 1].
Proof. by vm_compute. Qed.

Example instance_name_12 : instance_name 12 = "instance_12.csv".
Proof. by vm_compute. Qed.

Example path_join_forms :
  os.path_join "out" "a.csv" = "out/a.csv" /\ os.path_join "out/" "a.csv" = "out/a.csv" /\
  os.path_join "" "a.csv" = "a.csv".
Proof. done. Qed.

(** The optimum of the instance [c8_weights]: no positive weight. *)
Example optimum_c8 :
  optimal_gene (data c8_weights) = [0; 0; 0; 0; 0]%Z /\
  (max_fitness (data c8_weights) == 0)%Q.
Proof. by vm_compute. Qed.

Example optimum_c2 :
  optimal_gene c2_weights = [1; 0; 1; 1; 1; 1; 1; 0; 0; 0]%Z /\
  (max_fitness c2_weights == 29)%Q.
Proof. by vm_compute. Qed.

(** The files after the run from [c7_world]: four, with these names. *)
Example files_of_c7 :
  let r := generate_instances fraction_text 4 "out" 2 [-10]%Q [10]%Q [5; 3]%Z
             true 1 false None c7_world in
  r.1 = Ret tt /\ size (w_fs r.2) = 4 /\
  Forall (fun p => is_Some (w_fs r.2 !! p))
    ["out/instance_0.csv"; "out/instance_1.csv"; "out/instance_2.csv"; "out/instance_3.csv"].
Proof.
  split; [by vm_compute |]. split; [by vm_compute |].
  repeat (constructor; [vm_compute; eauto |]). constructor.
Qed.

(** A continuous range finer than the rounding: every weight is rounded
    to 0, below [min_w]. *)
Example rounded_below_min_w :
  exists v, (sample 0 (Config "out" (1 # 1000) (4 # 1000) 1 false 1 false None)
               (fun _ => 2 ^ 52)%Z).1 = Ret (NDArray float64 [v]) /\
    (v == 0)%Q /\ ~ in_range (1 # 1000) (4 # 1000) v.
Proof.
  eexists. split; [by vm_compute |]. split; [by vm_compute |].
  intros [H _]. by vm_compute in H.
Qed.

(* ===================================================================== *)
(** * Instances of the theorems *)
(* ===================================================================== *)


(** C3 at the instance [c8_weights]. *)
Lemma C3_witness :
  Z.of_nat (length (data c8_weights)) = length_ c8_config /\
  length (optimal_gene (data c8_weights)) = length (data c8_weights) /\
  forall i w, data c8_weights !! i = Some w ->
    exists b, optimal_gene (data c8_weights) !! i = Some b /\ is_bit b /\
      (b = 1%Z <-> (0 < w)%Q) /\ (b = 0%Z <-> (w <= 0)%Q).
Proof.
  apply (C3_gene_matches_weights 0 c8_config c8_draws c8_weights
           (sample 0 c8_config c8_draws).2).
  vm_compute. reflexivity.
Defined.



(** The range [[0, 0]] admits only zero. *)
Lemma only_zero_0_0 (discrete : bool) : only_zero 0 0 discrete.
Proof.
  assert (forall r, np.uniform1 0 0 r == 0)%Q as Hu.
  { intros r. unfold np.uniform1. ring. }
  assert (forall r, Num.round2 (np.uniform1 0 0 r) == 0)%Q as Hr.
  { intros r. unfold Num.round2.
    assert (Num.rint (np.uniform1 0 0 r * 100) = 0%Z) as ->; [| reflexivity].
    apply Z.le_antisymm.
    - apply rint_upper. pose proof (Hu r). change (inject_Z 0) with 0%Q. lra.
    - apply rint_lower. pose proof (Hu r). change (inject_Z 0) with 0%Q. lra. }
  split.
  - destruct discrete.
    + exists 0%Q, 0%Z. split; [reflexivity |]. vm_compute. split; discriminate.
    + exists (Num.round2 (np.uniform1 0 0 0)), 0%Z. reflexivity.
  - destruct discrete.
    + intros v (k & -> & Hk). change (0 <= k <= 0)%Z in Hk.
      assert (k = 0%Z) as -> by lia. reflexivity.
    + intros v (r & ->). apply Hr.
Qed.

(** C6 at three integer weights of the range [[0, 0]]. *)
Lemma C6_witness :
  (_sample_weights 7 0 0 3 true true (fun _ => 5%Z)).1 = Diverge /\
  forall ws, has_zero ws ->
    (while_any_zero 7 (resample 0 0 true) ws (fun _ => 5%Z)).1 = Diverge.
Proof.
  apply (C6_unguarded_resampling 0 0 true 3 7 (fun _ => 5%Z)).
  - apply only_zero_0_0.
  - lia.
Defined.

(** C9 at one pass over the array [[0, 5]]. *)
Lemma C9_witness :
  let ws := [0; 5]%Q in
  let g : np.rng := fun _ => 3%Z in
  let ws' := [-7; 5]%Q in
  (forall discrete mask,
     np.any mask = true ->
     resample_ratio (-10) 10 discrete ws mask g = resample (-10) 10 discrete ws mask g) /\
  (forall fuel discrete,
     while_any_zero fuel (resample_ratio (-10) 10 discrete) ws g =
     while_any_zero fuel (resample (-10) 10 discrete) ws g) /\
  (forall i w, ws !! i = Some w -> (w == 0)%Q ->
     exists k : Z, ws' !! i = Some (inject_Z k) /\
       (Num.int_of_float (-10) <= k < Num.int_of_float (10 + 1))%Z).
Proof.
  apply (C9_lower_bound_is_min_w (-10) 10 [0; 5]%Q (fun _ => 3%Z) [-7; 5]%Q
           (resample_ratio (-10) 10 true [0; 5]%Q (np.eq_zero [0; 5]%Q) (fun _ => 3%Z)).2).
  vm_compute. reflexivity.
Defined.


(** C7 at a run of four instances in an empty directory. *)
Lemma C7_witness :
  let r := generate_instances fraction_text 4 "out" 2 [-10]%Q [10]%Q [5; 3]%Z
             true 1 false None c7_world in
  r.1 = Ret tt /\
  exists k, numbered "out" (w_fs r.2) k /\ k <= 4 /\ (r.1 = Ret tt -> k = 4) /\
    (1%Z = 1%Z -> forall p, is_Some (w_fs r.2 !! p) ->
       is_Some (w_fs c7_world !! p) \/ exists i, i < k /\ p = instance_path "out" i).
Proof.
  split; [by vm_compute |].
  apply (C7_instance_file_names fraction_text 4 "out").
  - intros i. split; [| lia]. intros [x Hx]. unfold c7_world in Hx. simpl in Hx.
    by rewrite lookup_empty in Hx.
  - by left.
  - vm_compute. lia.
Defined.

(* ===================================================================== *)
(** * Further properties: the optimum *)
(* ===================================================================== *)




(* ===================================================================== *)
(** * Further properties: the samplers *)
(* ===================================================================== *)








Lemma rint_zero (q : Q) : (q == 0)%Q -> Num.rint q = 0%Z.
Proof.
  intros Hq. apply Z.le_antisymm.
  - apply rint_upper. change (inject_Z 0) with 0%Q. lra.
  - apply rint_lower. change (inject_Z 0) with 0%Q. lra.
Qed.

(** X5: a gene length of 0 gives the empty weight vector in both samplers,
    for every range, percentage and fuel, also with [no_zero] and with an
    empty range: no draw is taken, nothing raises and the re-sampling loop
    is not entered.  Its gene is empty and its fitness 0. *)
Theorem X5_empty_instance fuel c g :
  length_ c = 0%Z ->
  exists a, sample fuel c g = (Ret a, g) /\ data a = [] /\
    optimal_gene (data a) = [] /\ (max_fitness (data a) == 0)%Q.
Proof.
  intros Hlen. unfold sample. rewrite Hlen. destruct (pos_percentage c) as [p |].
  - rewrite _sample_with_ratio_unfold.
    assert (pos_count p 0 = 0%Z) as Hcnt by (apply rint_zero; unfold inject_Z; ring).
    rewrite Hcnt.
    unfold bind, np.permutation, np.zeros, pos_draw, neg_draw, np.randint, np.uniform.
    simpl. destruct (discrete c), (no_zero c); simpl;
      rewrite ?(while_no_zero fuel _ [] g) by constructor; by eexists.
  - unfold _sample_weights, bind, first_draw, np.randint, np.uniform. simpl.
    destruct (discrete c), (no_zero c); simpl;
      rewrite ?(while_no_zero fuel _ [] g) by constructor; by eexists.
Qed.



(** X5 at the empty range [[3, 1]] with [no_zero]. *)
Lemma X5_witness :
  exists a, sample 0 (Config "out" 3 1 0 true 1 true None) c8_draws = (Ret a, c8_draws) /\
    data a = [] /\ optimal_gene (data a) = [] /\ (max_fitness (data a) == 0)%Q.
Proof.
  apply (X5_empty_instance 0 (Config "out" 3 1 0 true 1 true None) c8_draws).
  reflexivity.
Defined.



(* ===================================================================== *)
(** * Further properties: the files and the output of a run *)
(* ===================================================================== *)

Lemma string_app_nil_r (s : string) : s +:+ "" = s.
Proof.
  induction s as [| a s IH]; [done |].
  change (String a (s +:+ "") = String a s). by rewrite IH.
Qed.


(** A relation between the state before and after a step that is
    reflexive and transitive holds over sequences and loops of steps. *)
Section Lift.

Context {St : Type} (R : St -> St -> Prop).
Hypothesis R_refl : forall s, R s s.
Hypothesis R_trans : forall s1 s2 s3, R s1 s2 -> R s2 s3 -> R s1 s3.

Lemma bind_lift {A B} (m : M St A) (k : A -> M St B) s :
  R s (m s).2 -> (forall a s', R s' (k a s').2) -> R s (bind m k s).2.
Proof using R_trans.
  intros Hm Hk. unfold bind. destruct (m s) as [[a | e |] s1]; simpl in *; [| done ..].
  eapply R_trans; [exact Hm | apply Hk].
Qed.

Lemma for_each_lift {A} (l : list A) (body : A -> M St unit) :
  (forall x, x ∈ l -> forall s, R s (body x s).2) -> forall s, R s (for_each l body s).2.
Proof using R_refl R_trans.
  induction l as [| x l IH]; intros Hb s; simpl; [apply R_refl |].
  apply bind_lift; [apply Hb; left |]. intros _ s'. apply IH.
  intros y Hy. apply Hb. by right.
Qed.

End Lift.

Lemma for_each_fmap {St A B} (f : A -> B) (l : list A) (body : B -> M St unit) s :
  for_each (f <$> l) body s = for_each l (fun x => body (f x)) s.
Proof.
  revert s. induction l as [| x l IH]; intros s; csimpl; [done |].
  unfold bind. destruct (body (f x) s) as [[[] | e |] s1]; [apply IH | done ..].
Qed.

Lemma for_each_ext {St A} (l : list A) (body1 body2 : A -> M St unit) s :
  (forall x s, body1 x s = body2 x s) -> for_each l body1 s = for_each l body2 s.
Proof.
  intros Hb. revert s. induction l as [| x l IH]; intros s; simpl; [done |].
  unfold bind. rewrite Hb. destruct (body2 x s) as [[[] | e |] s1]; [apply IH | done ..].
Qed.


Section GeneratorRuns.

Variable str_float : Q -> string.

(** The sweep as a loop over its cells. *)
Lemma generate_instances_cells fuel dir num_instances mins maxs lens
    discrete fmt no_zero pos_percentage w :
  generate_instances str_float fuel dir num_instances mins maxs lens
    discrete fmt no_zero pos_percentage w =
  (os.makedirs dir ;;;
   for_each (cells_of dir mins maxs lens discrete fmt no_zero pos_percentage)
     (generate_cell str_float fuel num_instances)) w.
Proof.
  unfold generate_instances, cells_of, bind.
  destruct (os.makedirs dir w) as [[[] | e |] w0]; [| done ..].
  rewrite for_each_fmap. apply for_each_ext. by intros [[a b] l] s.
Qed.

Lemma cells_of_output_dir dir mins maxs lens discrete format no_zero pos_percentage c :
  c ∈ cells_of dir mins maxs lens discrete format no_zero pos_percentage ->
  output_dir c = dir /\ fmt c = format.
Proof. unfold cells_of. intros ([[a b] l] & -> & _)%list_elem_of_fmap. done. Qed.

Lemma generate_cell_unfold fuel num_instances c w :
  generate_cell str_float fuel num_instances c w =
  ((if use_overview c then os.write_file (overview_path str_float c) "" else ret tt) ;;;
   for_each (seq 0 (Z.to_nat num_instances)) (fun _ => generate_one str_float fuel c)) w.
Proof. reflexivity. Qed.

(** A step relation that the parts of the loop body keep is kept by the
    run. *)
Section RunLift.

Variable R : world -> world -> Prop.
Variable good : config -> Prop.
Hypothesis R_refl : forall w, R w w.
Hypothesis R_trans : forall w1 w2 w3, R w1 w2 -> R w2 w3 -> R w1 w3.
Hypothesis R_rng : forall w g, R w (set_rng g w).
Hypothesis R_print : forall w line, R w (print line w).2.
Hypothesis R_single : forall fuel c a w, good c -> R w (write_single str_float fuel c a w).2.
Hypothesis R_overview : forall c a w, good c -> R w (write_overview str_float c a w).2.
Hypothesis R_open : forall c w,
  good c -> use_overview c = true -> R w (os.write_file (overview_path str_float c) "" w).2.

Lemma generate_one_lift fuel c w : good c -> R w (generate_one str_float fuel c w).2.
Proof using R_refl R_trans R_rng R_print R_single R_overview.
  intros Hc. rewrite generate_one_unfold. apply bind_lift; [done | |].
  { unfold with_rng, zoom. destruct (sample fuel c (w_rng w)). apply R_rng. }
  intros a w1. apply bind_lift; [done | by apply R_single |].
  intros _ w2. apply bind_lift; [done | by apply R_overview |].
  intros _ w3. apply R_print.
Qed.

Lemma generate_cell_lift fuel num_instances c w :
  good c -> R w (generate_cell str_float fuel num_instances c w).2.
Proof using R_refl R_trans R_rng R_print R_single R_overview R_open.
  intros Hc. rewrite generate_cell_unfold. apply bind_lift; [done | |].
  - destruct (use_overview c) eqn:Hov; [by apply R_open | apply R_refl].
  - intros _ w1. apply for_each_lift; [done .. |]. intros _ _ w2. by apply generate_one_lift.
Qed.

Lemma cells_lift fuel num_instances (cells : list config) w :
  (forall c, c ∈ cells -> good c) ->
  R w (for_each cells (generate_cell str_float fuel num_instances) w).2.
Proof using R_refl R_trans R_rng R_print R_single R_overview R_open.
  intros Hgood. apply for_each_lift; [done .. |].
  intros c Hc w1. apply generate_cell_lift. by apply Hgood.
Qed.


End RunLift.

Lemma write_single_keeps fuel c a p w : keeps p w (write_single str_float fuel c a w).2.
Proof.
  unfold write_single, _next_available_index, keeps. destruct (use_single c); [| done].
  unfold bind. destruct (scan_index fuel (output_dir c) 0 w) as [[n | e |] w1] eqn:Hscan;
    pose proof (scan_index_state _ _ _ _ _ _ Hscan) as ->; [| done ..].
  apply scan_index_Ret in Hscan as (_ & _ & Hfree & _).
  intros v Hv. simpl. rewrite lookup_insert_ne; [done |].
  intros <-. unfold instance_path in Hfree. congruence.
Qed.

Lemma cells_keep fuel num_instances (cells : list config) p w :
  (forall c, c ∈ cells -> use_overview c = true -> p <> overview_path str_float c) ->
  keeps p w (for_each cells (generate_cell str_float fuel num_instances) w).2.
Proof.
  intros Hp.
  apply (cells_lift (keeps p)
           (fun c => use_overview c = true -> p <> overview_path str_float c));
    [by intros ?? | | by intros ??? | by intros ??? | | | | done].
  - intros w1 w2 w3 H12 H23 v Hv. by apply H23, H12.
  - intros fuel' c a w1 _. apply write_single_keeps.
  - intros c a w1 Hc v Hv. unfold write_overview.
    destruct (use_overview c); [| done]. simpl.
    by rewrite !lookup_alter_ne by (intros <-; by apply Hc).
  - intros c w1 Hc Hov v Hv. simpl. rewrite lookup_insert_ne; [done |].
    intros <-. by apply Hc.
Qed.

Lemma generate_instances_keep fuel dir num_instances mins maxs lens
    discrete fmt no_zero pos_percentage p w :
  (forall c, c ∈ cells_of dir mins maxs lens discrete fmt no_zero pos_percentage ->
     use_overview c = true -> p <> overview_path str_float c) ->
  keeps p w (generate_instances str_float fuel dir num_instances mins maxs lens
               discrete fmt no_zero pos_percentage w).2.
Proof.
  intros Hp. rewrite generate_instances_cells. unfold bind.
  destruct (os.makedirs dir w) as [o w0] eqn:Hmk.
  apply makedirs_state in Hmk as ->. destruct o as [[] | e |]; [| by intros ? ..].
  by apply cells_keep.
Qed.

Lemma generate_instances_keep_instance fuel dir num_instances mins maxs lens
    discrete fmt no_zero pos_percentage i w :
  keeps (instance_path dir i) w
    (generate_instances str_float fuel dir num_instances mins maxs lens
       discrete fmt no_zero pos_percentage w).2.
Proof.
  apply generate_instances_keep. intros c [<- _]%cells_of_output_dir _ Heq.
  by eapply overview_path_not_instance.
Qed.

(** X7: a run never overwrites or removes an instance file that exists;
    with a format other than 0 and 2 it changes no existing file at all;
    with any format it changes no existing file other than the overview
    files of its cells.  This holds however the run ends. *)
Theorem X7_existing_files_kept fuel dir num_instances mins maxs lens
    discrete fmt no_zero pos_percentage w :
  let r := generate_instances str_float fuel dir num_instances mins maxs lens
             discrete fmt no_zero pos_percentage w in
  (forall i v, w_fs w !! instance_path dir i = Some v ->
     w_fs r.2 !! instance_path dir i = Some v) /\
  ((fmt <> 0 /\ fmt <> 2)%Z ->
   forall p v, w_fs w !! p = Some v -> w_fs r.2 !! p = Some v) /\
  (forall p v,
     (forall c, c ∈ cells_of dir mins maxs lens discrete fmt no_zero pos_percentage ->
        p <> overview_path str_float c) ->
     w_fs w !! p = Some v -> w_fs r.2 !! p = Some v).
Proof.
  intros r. split; [| split].
  - intros i v. apply generate_instances_keep_instance.
  - intros [H0 H2] p v. apply generate_instances_keep.
    intros c [_ Hf]%cells_of_output_dir Hov.
    unfold use_overview in Hov. rewrite Hf in Hov.
    destruct (Z.eqb_spec fmt 0), (Z.eqb_spec fmt 2); done.
  - intros p v Hp. apply generate_instances_keep. intros c Hc _. by apply Hp.
Qed.


End GeneratorRuns.

Section GeneratorOutput.

Variable str_float : Q -> string.





Lemma write_single_out fuel c a w :
  w_out (write_single str_float fuel c a w).2 = w_out w /\
  w_rng (write_single str_float fuel c a w).2 = w_rng w.
Proof.
  unfold write_single, _next_available_index. destruct (use_single c); [| done].
  unfold bind. destruct (scan_index fuel (output_dir c) 0 w) as [o w1] eqn:Hscan.
  apply scan_index_state in Hscan as ->. by destruct o.
Qed.

Lemma write_overview_out c a w :
  w_out (write_overview str_float c a w).2 = w_out w /\
  w_rng (write_overview str_float c a w).2 = w_rng w.
Proof. unfold write_overview. by destruct (use_overview c). Qed.

Lemma generate_one_out fuel c w :
  let r := generate_one str_float fuel c w in
  w_out r.2 = w_out w ++ (if r.1 is Ret _ then [progress str_float c] else []).
Proof.
  simpl. rewrite generate_one_unfold. unfold bind.
  assert (w_out (with_rng (sample fuel c) w).2 = w_out w) as H0.
  { unfold with_rng, zoom. by destruct (sample fuel c (w_rng w)). }
  destruct (with_rng (sample fuel c) w) as [[a | e |] w1]; simpl in *;
    [| by rewrite app_nil_r ..].
  destruct (write_single_out fuel c a w1) as [H1 _].
  destruct (write_single str_float fuel c a w1) as [[[] | e |] w2]; simpl in *;
    [| rewrite app_nil_r; congruence ..].
  destruct (write_overview_out c a w2) as [H2 _].
  destruct (write_overview str_float c a w2) as [[[] | e |] w3]; simpl in *;
    [| rewrite app_nil_r; congruence ..].
  congruence.
Qed.

Lemma for_each_out fuel c (l : list nat) w :
  let r := for_each l (fun _ => generate_one str_float fuel c) w in
  exists k, k <= length l /\
    w_out r.2 = w_out w ++ replicate k (progress str_float c) /\
    (r.1 = Ret tt -> k = length l).
Proof.
  revert w. induction l as [| x l IH]; intros w; simpl.
  - exists 0. by rewrite app_nil_r.
  - unfold bind. pose proof (generate_one_out fuel c w) as H1. simpl in H1.
    destruct (generate_one str_float fuel c w) as [[[] | e |] w1]; simpl in *.
    + destruct (IH w1) as (k & Hk & Hout & Hret). exists (S k).
      split; [lia |]. split; [| intros Hr; by rewrite Hret].
      rewrite Hout, H1, <- app_assoc. done.
    + exists 0. split; [lia |]. done.
    + exists 0. split; [lia |]. done.
Qed.

Lemma generate_cell_out fuel num_instances c w :
  let r := generate_cell str_float fuel num_instances c w in
  exists k, k <= Z.to_nat num_instances /\
    w_out r.2 = w_out w ++ replicate k (progress str_float c) /\
    (r.1 = Ret tt -> k = Z.to_nat num_instances).
Proof.
  simpl. rewrite generate_cell_unfold. unfold bind.
  set (w1 := if use_overview c
             then set_fs (<[overview_path str_float c := ""]> (w_fs w)) w else w).
  assert ((if use_overview c then os.write_file (overview_path str_float c) "" else ret tt) w
          = (Ret tt, w1)) as ->.
  { unfold w1. by destruct (use_overview c). }
  assert (w_out w1 = w_out w) as <- by (unfold w1; by destruct (use_overview c)).
  destruct (for_each_out fuel c (seq 0 (Z.to_nat num_instances)) w1) as (k & Hk & Hout & Hret).
  rewrite length_seq in Hk, Hret. by exists k.
Qed.

Lemma cells_out fuel num_instances (cells : list config) w :
  let r := for_each cells (generate_cell str_float fuel num_instances) w in
  let lines := progress_lines str_float num_instances cells in
  (exists k, w_out r.2 = w_out w ++ take k lines) /\
  (r.1 = Ret tt -> w_out r.2 = w_out w ++ lines).
Proof.
  cbv zeta. revert w. induction cells as [| c cells IH]; intros w.
  - simpl. split; [exists 0 |]; by rewrite ?app_nil_r.
  - assert (progress_lines str_float num_instances (c :: cells)
            = replicate (Z.to_nat num_instances) (progress str_float c)
              ++ progress_lines str_float num_instances cells) as -> by done.
    cbn [for_each]. unfold bind.
    destruct (generate_cell_out fuel num_instances c w) as (k1 & Hk1 & Hout1 & Hret1).
    destruct (generate_cell str_float fuel num_instances c w) as [[[] | e |] w1]; simpl in *.
    + specialize (Hret1 eq_refl). subst k1.
      destruct (IH w1) as [[k2 Hk2] Hret2]. split.
      * exists (Z.to_nat num_instances + k2).
        rewrite take_app_add' by (by rewrite length_replicate).
        by rewrite Hk2, Hout1, <- app_assoc.
      * intros Hr. by rewrite (Hret2 Hr), Hout1, <- app_assoc.
    + split; [| done]. exists k1.
      rewrite take_app_le by (by rewrite length_replicate).
      by rewrite take_replicate, Nat.min_l.
    + split; [| done]. exists k1.
      rewrite take_app_le by (by rewrite length_replicate).
      by rewrite take_replicate, Nat.min_l.
Qed.

Lemma progress_lines_length num_instances (cells : list config) :
  length (progress_lines str_float num_instances cells)
  = length cells * Z.to_nat num_instances.
Proof.
  unfold progress_lines. induction cells as [| c cells IH]; [done |].
  rewrite bind_cons, length_app, length_replicate, IH. simpl. lia.
Qed.

(** X10: a run appends to the output the progress lines of its cells, one
    line per instance and cell in the order of the sweep, and nothing else:
    all of them when it returns, a first part of them when it raises or
    diverges. *)
Theorem X10_progress_lines fuel dir num_instances mins maxs lens
    discrete fmt no_zero pos_percentage w :
  let r := generate_instances str_float fuel dir num_instances mins maxs lens
             discrete fmt no_zero pos_percentage w in
  let lines := progress_lines str_float num_instances
                 (cells_of dir mins maxs lens discrete fmt no_zero pos_percentage) in
  length lines = length mins * (length maxs * length lens) * Z.to_nat num_instances /\
  (exists k, w_out r.2 = w_out w ++ take k lines) /\
  (r.1 = Ret tt -> w_out r.2 = w_out w ++ lines).
Proof.
  simpl. split.
  { rewrite progress_lines_length. unfold cells_of.
    by rewrite length_fmap, product3_length. }
  rewrite generate_instances_cells. unfold bind.
  destruct (os.makedirs dir w) as [o w0] eqn:Hmk.
  apply makedirs_state in Hmk as ->. destruct o as [[] | e |]; simpl.
  - apply cells_out.
  - split; [exists 0; by rewrite take_0, app_nil_r | done].
  - split; [exists 0; by rewrite take_0, app_nil_r | done].
Qed.

Lemma product3_nil {A B C} (l1 : list A) (l2 : list B) (l3 : list C) :
  l1 = [] \/ l2 = [] \/ l3 = [] -> product3 l1 l2 l3 = [].
Proof.
  intros H. apply length_zero_iff_nil. rewrite product3_length.
  destruct H as [-> | [-> | ->]]; simpl; lia.
Qed.

Lemma cells_zero fuel num_instances (cells : list config) w :
  (num_instances <= 0)%Z ->
  let r := for_each cells (generate_cell str_float fuel num_instances) w in
  r.1 = Ret tt /\ w_rng r.2 = w_rng w /\ w_out r.2 = w_out w /\
  (forall p, (forall c, c ∈ cells -> use_overview c = true -> p <> overview_path str_float c) ->
     w_fs r.2 !! p = w_fs w !! p) /\
  (forall c, c ∈ cells -> use_overview c = true ->
     w_fs r.2 !! overview_path str_float c = Some "") /\
  (forall p, w_fs w !! p = Some "" -> w_fs r.2 !! p = Some "").
Proof.
  intros Hn. simpl. revert w. induction cells as [| c cells IH]; intros w; simpl.
  - repeat split; try done. intros c Hc. by apply elem_of_nil in Hc.
  - set (w1 := if use_overview c
               then set_fs (<[overview_path str_float c := ""]> (w_fs w)) w else w).
    assert (generate_cell str_float fuel num_instances c w = (Ret tt, w1)) as Hcell.
    { rewrite generate_cell_unfold. unfold bind, w1.
      replace (Z.to_nat num_instances) with 0 by lia. by destruct (use_overview c). }
    unfold bind. rewrite Hcell.
    destruct (IH w1) as (Hret & Hrng & Hout & Hother & Hopen & Hempty).
    assert (forall p, w_fs w !! p = Some "" -> w_fs w1 !! p = Some "") as Hempty1.
    { intros p Hp. unfold w1. destruct (use_overview c); [| done]. simpl.
      destruct (decide (p = overview_path str_float c)) as [-> | Hne].
      - apply lookup_insert_eq.
      - by rewrite lookup_insert_ne. }
    split; [done |]. split; [rewrite Hrng; unfold w1; by destruct (use_overview c) |].
    split; [rewrite Hout; unfold w1; by destruct (use_overview c) |].
    split; [| split].
    + intros p Hp. rewrite Hother by (intros c' Hc'; apply Hp; by right).
      unfold w1. destruct (use_overview c) eqn:Hov; [| done]. simpl.
      rewrite lookup_insert_ne; [done |]. intros Heq. by apply (Hp c); [left | | ].
    + intros c' [-> | Hc']%elem_of_cons Hov'; [| by apply Hopen].
      apply Hempty. unfold w1. rewrite Hov'. simpl. apply lookup_insert_eq.
    + intros p Hp. by apply Hempty, Hempty1.
Qed.

(** X11: with an instance count of 0 or less, or with an empty list of
    lower bounds, upper bounds or lengths, a run returns without a draw and
    without output and changes no file but the overview files of its cells:
    with the formats 0 and 2 each of these is created or emptied. *)
Theorem X11_nothing_to_generate fuel dir num_instances mins maxs lens
    discrete fmt no_zero pos_percentage w :
  (num_instances <= 0)%Z \/ mins = [] \/ maxs = [] \/ lens = [] ->
  dir <> "" -> w_fs w !! dir = None ->
  let r := generate_instances str_float fuel dir num_instances mins maxs lens
             discrete fmt no_zero pos_percentage w in
  let cells := cells_of dir mins maxs lens discrete fmt no_zero pos_percentage in
  r.1 = Ret tt /\ w_rng r.2 = w_rng w /\ w_out r.2 = w_out w /\
  (forall p, (forall c, c ∈ cells -> use_overview c = true -> p <> overview_path str_float c) ->
     w_fs r.2 !! p = w_fs w !! p) /\
  (forall c, c ∈ cells -> use_overview c = true ->
     w_fs r.2 !! overview_path str_float c = Some "").
Proof.
  intros Hnone Hdir Hfile. simpl. rewrite generate_instances_cells. unfold bind.
  assert (os.makedirs dir w = (Ret tt, w)) as ->.
  { unfold os.makedirs. destruct (decide (dir = "")); [done |].
    rewrite bool_decide_eq_false_2; [done |]. rewrite Hfile. by intros [? ?]. }
  destruct Hnone as [Hn | Hnil].
  - destruct (cells_zero fuel num_instances
                (cells_of dir mins maxs lens discrete fmt no_zero pos_percentage) w Hn)
      as (Hret & Hrng & Hout & Hother & Hopen & _).
    done.
  - unfold cells_of. rewrite (product3_nil mins maxs lens Hnil). simpl.
    repeat split; try done. intros c Hc. by apply elem_of_nil in Hc.
Qed.

Lemma generate_instances_numbered_from fuel dir num_instances mins maxs lens
    discrete fmt no_zero pos_percentage w k :
  let total := length (product3 mins maxs lens) * Z.to_nat num_instances in
  numbered dir (w_fs w) k -> (fmt = 1 \/ fmt = 2)%Z -> k + total <= fuel ->
  let r := generate_instances str_float fuel dir num_instances mins maxs lens
             discrete fmt no_zero pos_percentage w in
  exists k', numbered dir (w_fs r.2) k' /\ k <= k' <= k + total /\
    (r.1 = Ret tt -> k' = k + total).
Proof.
  intros total Hnum Hfmt Hfuel. simpl. unfold generate_instances, bind.
  destruct (os.makedirs dir w) as [o w0] eqn:Hmk.
  apply makedirs_state in Hmk as ->.
  destruct o as [[] | e |]; simpl;
    [| exists k; split; [done |]; split; [lia | done] ..].
  destruct (cells_numbered str_float fuel num_instances dir discrete fmt no_zero
              pos_percentage (product3 mins maxs lens) w k Hnum) as (k' & Hk & Hle & Hret).
  { destruct Hfmt as [-> | ->]; simpl; unfold total in Hfuel; lia. }
  assert ((if ((fmt =? 1)%Z || (fmt =? 2)%Z) then 1 else 0) = 1) as Hper
    by (by destruct Hfmt as [-> | ->]).
  rewrite Hper in Hle, Hret.
  exists k'. split; [done |]. unfold total. split; [lia |].
  intros Hr. specialize (Hret Hr). lia.
Qed.

(** X12: a run in a directory that holds the instance files numbered below
    [k] continues the numbering: with the formats 1 and 2 it leaves the
    instance files numbered below [k] plus the number of instances it
    completed, and the files that were there keep their content. *)
Theorem X12_numbering_continues fuel dir num_instances mins maxs lens
    discrete fmt no_zero pos_percentage w k :
  let total := length (product3 mins maxs lens) * Z.to_nat num_instances in
  numbered dir (w_fs w) k -> (fmt = 1 \/ fmt = 2)%Z -> k + total <= fuel ->
  let r := generate_instances str_float fuel dir num_instances mins maxs lens
             discrete fmt no_zero pos_percentage w in
  exists k', numbered dir (w_fs r.2) k' /\ k <= k' <= k + total /\
    (r.1 = Ret tt -> k' = k + total) /\
    (forall i, i < k ->
       w_fs r.2 !! instance_path dir i = w_fs w !! instance_path dir i).
Proof.
  intros total Hnum Hfmt Hfuel r.
  destruct (generate_instances_numbered_from fuel dir num_instances mins maxs lens
              discrete fmt no_zero pos_percentage w k Hnum Hfmt Hfuel)
    as (k' & Hk' & Hle & Hret).
  exists k'. split; [done |]. split; [done |]. split; [done |].
  intros i Hi. apply (Hnum i) in Hi as [v Hv]. rewrite Hv.
  by apply (generate_instances_keep_instance str_float).
Qed.

End GeneratorOutput.


(** X11 at a run of no instance with both formats. *)
Lemma X11_witness :
  let r := generate_instances fraction_text 0 "out" 0 [-10]%Q [10]%Q [3]%Z
             true 2 false None x9_world in
  let cells := cells_of "out" [-10]%Q [10]%Q [3]%Z true 2 false None in
  r.1 = Ret tt /\ w_rng r.2 = w_rng x9_world /\ w_out r.2 = w_out x9_world /\
  (forall p, (forall c, c ∈ cells -> use_overview c = true ->
                p <> overview_path fraction_text c) ->
     w_fs r.2 !! p = w_fs x9_world !! p) /\
  (forall c, c ∈ cells -> use_overview c = true ->
     w_fs r.2 !! overview_path fraction_text c = Some "").
Proof.
  apply (X11_nothing_to_generate fraction_text 0 "out" 0 [-10]%Q [10]%Q [3]%Z
           true 2 false None x9_world).
  - left. lia.
  - discriminate.
  - reflexivity.
Defined.

(** X12 at a run of two instances in a directory that holds
    [instance_0.csv]. *)
Lemma X12_witness :
  let r := generate_instances fraction_text 3 "out" 2 [-10]%Q [10]%Q [3]%Z
             true 1 false None x12_world in
  exists k', numbered "out" (w_fs r.2) k' /\ 1 <= k' <= 1 + 1 * Z.to_nat 2 /\
    (r.1 = Ret tt -> k' = 1 + 1 * Z.to_nat 2) /\
    (forall i, i < 1 ->
       w_fs r.2 !! instance_path "out" i = w_fs x12_world !! instance_path "out" i).
Proof.
  apply (X12_numbering_continues fraction_text 3 "out" 2 [-10]%Q [10]%Q [3]%Z
           true 1 false None x12_world 1).
  - apply (numbered_insert "out" ∅ 0). intros i. rewrite lookup_empty. split; [| lia].
    by intros [? ?].
  - by left.
  - vm_compute. lia.
Defined.

(* ===================================================================== *)
(** * Further properties: the command line *)
(* ===================================================================== *)

Example getopt_example :
  getopt.getopt ["-n"; "2"; "--gene"; "[5,7]"; "-zw"; "--format=2"; "out"; "-d"]
    cli.shortopts cli.longopts
  = inr ([("-n", "2"); ("--gene_lengths", "[5,7]"); ("-z", ""); ("-w", "");
          ("--format", "2")], ["out"; "-d"]).
Proof. by vm_compute. Qed.

Example getopt_errors :
  getopt.getopt ["-x"] cli.shortopts cli.longopts = inl (getopt.Error getopt.not_recognized "x") /\
  getopt.getopt ["--n"; "2"] cli.shortopts cli.longopts
  = inl (getopt.Error getopt.not_a_unique_prefix "n") /\
  getopt.getopt ["-n"] cli.shortopts cli.longopts
  = inl (getopt.Error getopt.requires_argument "n") /\
  getopt.getopt ["--no_zero=1"] cli.shortopts cli.longopts
  = inl (getopt.Error getopt.must_not_have_an_argument "no_zero").
Proof. by vm_compute. Qed.

Example list_arg_forms :
  cli.list_arg "[500,1000,1500]" = ["500"; "1000"; "1500"] /\
  cli.list_arg "[[-10]" = ["-10"] /\ cli.list_arg "3,4" = ["3"; "4"] /\
  cli.list_arg "[]" = [""] /\ cli.list_arg "[1,]" = ["1"; ""].
Proof. by vm_compute. Qed.

Example driver_parsed :
  driver.lengths = [10000%Z] /\
  cli.set_options decimal decimal_float
    (match getopt.getopt (driver.argv 10000) cli.shortopts cli.longopts with
     | inr (opts, _) => opts
     | inl _ => []
     end) cli.defaults
  = inr (cli.Args 1 [-25]%Q [25]%Q [10000]%Z "instance" true 1 true None).
Proof. by vm_compute. Qed.

Lemma split_nonempty sep s : str.split sep s <> [].
Proof.
  induction s as [| a s IH]; simpl; [done |].
  destruct (Ascii.eqb a sep); [done |]. by destruct (str.split sep s).
Qed.

Lemma list_map_nonempty {A} (f : string -> option A) val r :
  cli.list_map f (cli.list_arg val) = inr r -> r <> [].
Proof.
  unfold cli.list_map. destruct (mapM f (cli.list_arg val)) as [k |] eqn:Hk; [| done].
  intros [= <-] ->. apply length_mapM in Hk. simpl in Hk.
  apply length_zero_iff_nil in Hk. by apply split_nonempty in Hk.
Qed.

Lemma list_map_error {A} (f : string -> option A) l e : cli.list_map f l = inl e -> e = ValueError.
Proof. unfold cli.list_map. destruct (mapM f l); [done |]. by intros [= <-]. Qed.

Lemma convert_error {A} (f : string -> option A) val e : cli.convert f val = inl e -> e = ValueError.
Proof. unfold cli.convert. destruct (f val); [done |]. by intros [= <-]. Qed.

Section CommandLineFacts.

Variable py_int : string -> option Z.
Variable py_float : string -> option Q.
Variable str_float : Q -> string.

Lemma set_option_from_command_line a opt val a' :
  from_command_line a -> cli.set_option py_int py_float a opt val = inr a' ->
  from_command_line a'.
Proof.
  intros (Hd & H1 & H2 & H3). unfold cli.set_option.
  repeat (destruct (cli.opt_in opt _);
          [ first [ destruct (cli.convert _ val) eqn:Hc
                  | destruct (cli.list_map _ (cli.list_arg val)) eqn:Hc
                  | idtac ];
            intros [= <-]; repeat split; simpl; try done;
            by eapply list_map_nonempty | ]).
  by intros [= <-].
Qed.

Lemma set_option_error a opt val e :
  cli.set_option py_int py_float a opt val = inl e -> e = ValueError.
Proof.
  unfold cli.set_option.
  repeat (destruct (cli.opt_in opt _);
          [ first [ destruct (cli.convert _ val) eqn:Hc; [apply convert_error in Hc |]
                  | destruct (cli.list_map _ (cli.list_arg val)) eqn:Hc;
                    [apply list_map_error in Hc |]
                  | idtac ];
            intros [= <-]; done | ]).
  done.
Qed.

Lemma set_options_from_command_line opts a a' :
  from_command_line a -> cli.set_options py_int py_float opts a = inr a' ->
  from_command_line a'.
Proof.
  revert a. induction opts as [| [opt val] opts IH]; intros a Ha; simpl.
  - by intros [= <-].
  - destruct (cli.set_option py_int py_float a opt val) as [e | a1] eqn:H1; [done |].
    apply IH. by eapply set_option_from_command_line.
Qed.

Lemma set_options_error opts a e :
  cli.set_options py_int py_float opts a = inl e -> e = ValueError.
Proof.
  revert a. induction opts as [| [opt val] opts IH]; intros a; simpl; [done |].
  destruct (cli.set_option py_int py_float a opt val) as [e1 | a1] eqn:H1.
  - intros [= <-]. by eapply set_option_error.
  - apply IH.
Qed.

Lemma set_options_app opts1 opts2 a :
  cli.set_options py_int py_float (opts1 ++ opts2) a =
  match cli.set_options py_int py_float opts1 a with
  | inl e => inl e
  | inr a' => cli.set_options py_int py_float opts2 a'
  end.
Proof.
  revert a. induction opts1 as [| [opt val] opts1 IH]; intros a; simpl; [done |].
  by destruct (cli.set_option py_int py_float a opt val).
Qed.

Lemma defaults_from_command_line : from_command_line cli.defaults.
Proof. by repeat split. Qed.

(** X13: whatever the arguments, [main] either stops with a [GetoptError]
    or a [ValueError] before anything is drawn, written or printed, or it
    calls the generator with integer weights ([discrete] is [True]) and with
    non-empty lists of lower bounds, upper bounds and lengths: no argument
    vector selects real-valued weights or an empty sweep. *)
Theorem X13_command_line_configurations fuel argv w :
  (exists e, cli.main py_int py_float str_float fuel argv w = (inl e, w)) \/
  cli.main py_int py_float str_float fuel argv w = (inr (Raise ValueError), w) \/
  (exists a,
     cli.discrete a = true /\ cli.min_weights a <> [] /\ cli.max_weights a <> [] /\
     cli.gene_lengths a <> [] /\
     cli.main py_int py_float str_float fuel argv w
     = (inr (cli.generate str_float fuel a w).1, (cli.generate str_float fuel a w).2)).
Proof.
  unfold cli.main.
  destruct (getopt.getopt argv cli.shortopts cli.longopts) as [e | [opts rest]];
    [left; by exists e |].
  right. destruct (cli.set_options py_int py_float opts cli.defaults) as [e | a] eqn:Hset.
  - left. by rewrite (set_options_error _ _ _ Hset).
  - right. exists a.
    destruct (set_options_from_command_line _ _ _ defaults_from_command_line Hset)
      as (Hd & H1 & H2 & H3).
    repeat split; try done. by destruct (cli.generate str_float fuel a w).
Qed.

End CommandLineFacts.

Lemma do_shorts_app optstring shortopts args opts args'' more :
  getopt.do_shorts optstring shortopts args = inr (opts, args'') ->
  getopt.do_shorts optstring shortopts (args ++ more) = inr (opts, args'' ++ more).
Proof.
  revert opts. induction optstring as [| opt rest IH]; intros opts; simpl.
  - by intros [= <- <-].
  - destruct (getopt.short_has_arg opt shortopts) as [e | []]; [done | |].
    + destruct rest, args; simpl; try done; by intros [= <- <-].
    + destruct (getopt.do_shorts rest shortopts args) as [e | [o a]] eqn:Hrest; [done |].
      intros [= <- <-]. by rewrite (IH o eq_refl).
Qed.

Lemma do_shorts_length optstring shortopts args opts args'' :
  getopt.do_shorts optstring shortopts args = inr (opts, args'') ->
  length args'' <= length args.
Proof.
  revert opts. induction optstring as [| opt rest IH]; intros opts; simpl.
  - by intros [= <- <-].
  - destruct (getopt.short_has_arg opt shortopts) as [e | []]; [done | |].
    + destruct rest, args; simpl; try done; intros [= <- <-]; simpl; lia.
    + destruct (getopt.do_shorts rest shortopts args) as [e | [o a]] eqn:Hrest; [done |].
      intros [= <- <-]. by apply (IH o).
Qed.

Lemma do_longs_app opt longopts args opts args'' more :
  getopt.do_longs opt longopts args = inr (opts, args'') ->
  getopt.do_longs opt longopts (args ++ more) = inr (opts, args'' ++ more).
Proof.
  unfold getopt.do_longs. destruct (getopt.split_eq opt) as [o optarg].
  destruct (getopt.long_has_args o longopts) as [e | [[] name]]; [done | |].
  - destruct optarg, args; simpl; try done; by intros [= <- <-].
  - destruct optarg; [done |]. by intros [= <- <-].
Qed.

Lemma do_longs_length opt longopts args opts args'' :
  getopt.do_longs opt longopts args = inr (opts, args'') ->
  length args'' <= length args.
Proof.
  unfold getopt.do_longs. destruct (getopt.split_eq opt) as [o optarg].
  destruct (getopt.long_has_args o longopts) as [e | [[] name]]; [done | |].
  - destruct optarg, args; simpl; try done; intros [= <- <-]; simpl; lia.
  - destruct optarg; [done |]. by intros [= <- <-].
Qed.

(** More turns than arguments change nothing. *)
Lemma loop_turns t1 t2 args shortopts longopts :
  length args <= t1 -> length args <= t2 ->
  getopt.loop t1 args shortopts longopts = getopt.loop t2 args shortopts longopts.
Proof.
  revert t2 args. induction t1 as [| t1 IH]; intros t2 args H1 H2.
  - destruct args; [by destruct t2 | simpl in H1; lia].
  - destruct args as [| arg args']; [by destruct t2 |].
    destruct t2 as [| t2]; [simpl in H2; lia |]. simpl in *.
    destruct (str.startswith arg "-" && negb (arg =? "-")%string); [| done].
    destruct (arg =? "--")%string; [done |].
    destruct (if str.startswith arg "--"
              then getopt.do_longs (str.slice_from arg 2) longopts args'
              else getopt.do_shorts (str.slice_from arg 1) shortopts args')
      as [e | [opts args'']] eqn:Hdo; [done |].
    assert (length args'' <= length args') as Hlen.
    { destruct (str.startswith arg "--");
        [by eapply do_longs_length | by eapply do_shorts_length]. }
    by rewrite (IH t2 args'') by lia.
Qed.

(** Arguments appended to an argument vector that parses: they are left
    over with the rest, or, when the vector was used up, parsed in turn. *)
Lemma loop_app t args shortopts longopts opts rest :
  length args <= t ->
  getopt.loop t args shortopts longopts = inr (opts, rest) ->
  (forall more t', length (args ++ more) <= t' ->
     getopt.loop t' (args ++ more) shortopts longopts = inr (opts, rest ++ more)) \/
  (rest = [] /\
   forall more t', length (args ++ more) <= t' ->
     getopt.loop t' (args ++ more) shortopts longopts
     = prepend opts (getopt.loop (length more) more shortopts longopts)).
Proof.
  revert args opts rest. induction t as [| t IH]; intros args opts rest Hlen Hrun.
  - destruct args; [| simpl in Hlen; lia]. simpl in Hrun. injection Hrun as <- <-.
    right. split; [done |]. intros more t' Hl. simpl in *.
    rewrite (loop_turns t' (length more)) by lia.
    destruct (getopt.loop _ _ _ _) as [e | [o r]]; done.
  - destruct args as [| arg args'].
    { simpl in Hrun. injection Hrun as <- <-.
      right. split; [done |]. intros more t' Hl. simpl in *.
      rewrite (loop_turns t' (length more)) by lia.
      destruct (getopt.loop _ _ _ _) as [e | [o r]]; done. }
    simpl in Hrun, Hlen.
    destruct (str.startswith arg "-" && negb (arg =? "-")%string) eqn:Hopt.
    + destruct (arg =? "--")%string eqn:Hdd.
      * injection Hrun as <- <-. left. intros more t' Hl.
        destruct t'; simpl; by rewrite Hopt, Hdd.
      * destruct (if str.startswith arg "--"
                  then getopt.do_longs (str.slice_from arg 2) longopts args'
                  else getopt.do_shorts (str.slice_from arg 1) shortopts args')
          as [e | [o args'']] eqn:Hdo; [done |].
        destruct (getopt.loop t args'' shortopts longopts) as [e | [o' r']] eqn:Hloop;
          [done |].
        injection Hrun as <- <-.
        assert (length args'' <= length args') as Hlen2.
        { destruct (str.startswith arg "--");
            [by eapply do_longs_length | by eapply do_shorts_length]. }
        assert (forall more,
          (if str.startswith arg "--"
           then getopt.do_longs (str.slice_from arg 2) longopts (args' ++ more)
           else getopt.do_shorts (str.slice_from arg 1) shortopts (args' ++ more))
          = inr (o, args'' ++ more)) as Hdo2.
        { intros more. destruct (str.startswith arg "--");
            [by apply do_longs_app | by apply do_shorts_app]. }
        destruct (IH args'' o' r' ltac:(lia) Hloop) as [Hleft | [-> Hright]].
        -- left. intros more t' Hl. simpl in Hl. rewrite length_app in Hl.
           destruct t' as [| t']; [lia |]. simpl. rewrite Hopt, Hdd, Hdo2.
           rewrite Hleft by (rewrite length_app; lia). done.
        -- right. split; [done |]. intros more t' Hl. simpl in Hl. rewrite length_app in Hl.
           destruct t' as [| t']; [lia |]. simpl. rewrite Hopt, Hdd, Hdo2.
           rewrite Hright by (rewrite length_app; lia).
           destruct (getopt.loop (length more) more shortopts longopts) as [e | [o2 r2]];
             simpl; [done |]. by rewrite app_assoc.
    + injection Hrun as <- <-. left. intros more t' Hl.
      destruct t'; simpl; by rewrite Hopt.
Qed.

Lemma getopt_app args shortopts longopts opts rest :
  getopt.getopt args shortopts longopts = inr (opts, rest) ->
  (forall more, getopt.getopt (args ++ more) shortopts longopts = inr (opts, rest ++ more)) \/
  (rest = [] /\
   forall more, getopt.getopt (args ++ more) shortopts longopts
                = prepend opts (getopt.getopt more shortopts longopts)).
Proof.
  unfold getopt.getopt. intros Hrun.
  destruct (loop_app _ _ _ _ _ _ (le_n _) Hrun) as [Hleft | [-> Hright]].
  - left. intros more. by apply Hleft.
  - right. split; [done |]. intros more. by apply Hright.
Qed.

Lemma getopt_discrete_flag flag argv :
  flag ∈ ["-d"; "-w"; "--discrete"] ->
  getopt.getopt (flag :: argv) cli.shortopts cli.longopts
  = prepend [(flag, "")] (getopt.getopt argv cli.shortopts cli.longopts).
Proof.
  intros Hflag. unfold getopt.getopt.
  repeat (apply elem_of_cons in Hflag as [-> | Hflag]); [.. | by apply elem_of_nil in Hflag];
    reflexivity.
Qed.

Section CommandLineArguments.

Variable py_int : string -> option Z.
Variable py_float : string -> option Q.
Variable str_float : Q -> string.

Lemma set_option_discrete_flag a flag :
  from_command_line a -> flag ∈ ["-d"; "-w"; "--discrete"] ->
  cli.set_option py_int py_float a flag "" = inr a.
Proof.
  intros (Hd & _) Hflag. destruct a; simpl in Hd; subst.
  repeat (apply elem_of_cons in Hflag as [-> | Hflag]); [.. | by apply elem_of_nil in Hflag];
    reflexivity.
Qed.

Lemma main_same_options fuel argv1 argv2 opts rest1 rest2 w :
  getopt.getopt argv1 cli.shortopts cli.longopts = inr (opts, rest1) ->
  getopt.getopt argv2 cli.shortopts cli.longopts = inr (opts, rest2) ->
  cli.main py_int py_float str_float fuel argv1 w
  = cli.main py_int py_float str_float fuel argv2 w.
Proof. unfold cli.main. by intros -> ->. Qed.

(** X14: the options [-d], [-w] and [--discrete] change nothing: where one
    of them follows arguments that [getopt] accepts and uses up, [main]
    does the same with and without it.  [-d] is accepted and has no branch;
    the other two set [discrete] to [True], which it is already. *)
Theorem X14_discrete_flags_change_nothing fuel argv1 flag argv2 opts w :
  getopt.getopt argv1 cli.shortopts cli.longopts = inr (opts, []) ->
  flag ∈ ["-d"; "-w"; "--discrete"] ->
  cli.main py_int py_float str_float fuel (argv1 ++ flag :: argv2) w
  = cli.main py_int py_float str_float fuel (argv1 ++ argv2) w.
Proof.
  intros Hrun Hflag. destruct (getopt_app _ _ _ _ _ Hrun) as [Hleft | [_ Hright]].
  - eapply main_same_options; apply Hleft.
  - unfold cli.main. rewrite !Hright, (getopt_discrete_flag flag argv2 Hflag).
    destruct (getopt.getopt argv2 cli.shortopts cli.longopts) as [e | [o r]]; simpl; [done |].
    rewrite !set_options_app.
    destruct (cli.set_options py_int py_float opts cli.defaults) as [e | a] eqn:Hset; [done |].
    simpl. rewrite set_option_discrete_flag; [done | | done].
    eapply set_options_from_command_line; [apply defaults_from_command_line | exact Hset].
Qed.

(** X15: [main] looks at no argument from the first one that is not an
    option: when [getopt] leaves arguments over, appending any further
    arguments, options among them, changes nothing. *)
Theorem X15_arguments_after_positional_ignored fuel argv opts rest more w :
  getopt.getopt argv cli.shortopts cli.longopts = inr (opts, rest) -> rest <> [] ->
  cli.main py_int py_float str_float fuel (argv ++ more) w
  = cli.main py_int py_float str_float fuel argv w.
Proof.
  intros Hrun Hrest. destruct (getopt_app _ _ _ _ _ Hrun) as [Hleft | [-> _]]; [| done].
  eapply main_same_options; [apply Hleft | exact Hrun].
Qed.

End CommandLineArguments.

Lemma all_chars_app p s t : all_chars p (s +:+ t) = all_chars p s && all_chars p t.
Proof.
  induction s as [| a s IH]; [done |].
  change (all_chars p (String a (s +:+ t)) = all_chars p (String a s) && all_chars p t).
  simpl. by rewrite IH, andb_assoc.
Qed.

Lemma all_chars_impl (p q : ascii -> bool) s :
  (forall a, p a = true -> q a = true) -> all_chars p s = true -> all_chars q s = true.
Proof.
  intros Hpq. induction s as [| a s IH]; simpl; [done |].
  intros [Ha Hs]%andb_true_iff. by rewrite (Hpq a Ha), IH.
Qed.

Lemma lstrip_brackets l s : brackets l -> str.lstrip "[]" (l +:+ s) = str.lstrip "[]" s.
Proof.
  unfold brackets. induction l as [| a l IH]; [done |]. simpl.
  intros [Ha Hl]%andb_true_iff.
  change (str.lstrip "[]" (String a (l +:+ s)) = str.lstrip "[]" s).
  simpl. rewrite Ha. by apply IH.
Qed.

Lemma rstrip_brackets r : brackets r -> str.rstrip "[]" r = "".
Proof.
  unfold brackets. induction r as [| a r IH]; [done |]. simpl.
  intros [Ha Hr]%andb_true_iff. by rewrite IH, Ha.
Qed.

Lemma strip_inner s r :
  all_chars (fun a => negb (str.mem a "[]")) s = true -> brackets r ->
  str.strip "[]" (s +:+ r) = s.
Proof.
  intros Hs Hr. unfold str.strip.
  assert (str.rstrip "[]" (s +:+ r) = s) as Hright.
  { clear -Hs Hr. induction s as [| a s IH]; [by apply rstrip_brackets |].
    simpl in Hs. apply andb_true_iff in Hs as [Ha Hs].
    change (str.rstrip "[]" (String a (s +:+ r)) = String a s).
    simpl. rewrite (IH Hs). apply negb_true_iff in Ha. rewrite Ha. by destruct s. }
  destruct s as [| a s].
  - change ("" +:+ r) with r. rewrite <- (string_app_nil_r r).
    by rewrite (lstrip_brackets r "").
  - simpl in Hs. apply andb_true_iff in Hs as [Ha Hs]. apply negb_true_iff in Ha.
    change (str.rstrip "[]" (str.lstrip "[]" (String a (s +:+ r))) = String a s).
    simpl str.lstrip. rewrite Ha. exact Hright.
Qed.

Lemma strip_decorated l s r :
  all_chars (fun a => negb (str.mem a "[]")) s = true -> brackets l -> brackets r ->
  str.strip "[]" (l +:+ s +:+ r) = s.
Proof.
  intros Hs Hl Hr. unfold str.strip. rewrite lstrip_brackets by done.
  by apply strip_inner.
Qed.

Lemma split_no_sep sep s :
  all_chars (fun a => negb (Ascii.eqb a sep)) s = true -> str.split sep s = [s].
Proof.
  induction s as [| a s IH]; simpl; [done |].
  intros [Ha Hs]%andb_true_iff. apply negb_true_iff in Ha. by rewrite Ha, IH.
Qed.

Lemma split_app sep x rest :
  all_chars (fun a => negb (Ascii.eqb a sep)) x = true ->
  str.split sep (x +:+ String sep rest) = x :: str.split sep rest.
Proof.
  induction x as [| a x IH]; simpl.
  - intros _. change (str.split sep (String sep rest) = "" :: str.split sep rest).
    simpl. by rewrite Ascii.eqb_refl.
  - intros [Ha Hx]%andb_true_iff. apply negb_true_iff in Ha.
    change (str.split sep (String a (x +:+ String sep rest))
            = String a x :: str.split sep rest).
    simpl. by rewrite Ha, IH.
Qed.

Lemma join_cons sep x y (l : list string) :
  str.join sep (x :: y :: l) = x +:+ sep +:+ str.join sep (y :: l).
Proof. reflexivity. Qed.

Lemma split_join sep (items : list string) :
  items <> [] ->
  Forall (fun s => all_chars (fun a => negb (Ascii.eqb a sep)) s = true) items ->
  str.split sep (str.join (String sep "") items) = items.
Proof.
  intros Hne Hall. induction Hall as [| x items Hx Hall IH]; [done |].
  destruct items as [| y items].
  - simpl. by apply split_no_sep.
  - rewrite join_cons.
    change (String sep "" +:+ str.join (String sep "") (y :: items))
      with (String sep (str.join (String sep "") (y :: items))).
    rewrite split_app by done. by rewrite IH.
Qed.

Lemma plain_char_spec a :
  plain_char a = true ->
  negb (str.mem a "[]") = true /\ negb (Ascii.eqb a ",") = true.
Proof.
  unfold plain_char, str.mem. simpl.
  destruct (Ascii.eqb a "["), (Ascii.eqb a "]"), (Ascii.eqb a ","); done.
Qed.

Lemma join_no_bracket (items : list string) :
  Forall plain items ->
  all_chars (fun a => negb (str.mem a "[]")) (str.join "," items) = true.
Proof.
  induction 1 as [| x items Hx Hall IH]; [done |].
  assert (all_chars (fun a => negb (str.mem a "[]")) x = true) as Hx'.
  { eapply all_chars_impl; [| exact Hx]. intros a Ha. by apply plain_char_spec in Ha as []. }
  destruct items as [| y items]; [done |].
  rewrite join_cons, !all_chars_app, Hx', IH. done.
Qed.

(** X16: a list argument is the items joined by commas, with any number
    of brackets, or none, on either side: for items without brackets and
    commas, [val.strip("[]").split(",")] gives the items back.  The list is
    never empty: brackets alone give one empty item. *)
Theorem X16_list_argument_syntax (items : list string) (l r : string) :
  items <> [] -> Forall plain items -> brackets l -> brackets r ->
  cli.list_arg (l +:+ str.join "," items +:+ r) = items.
Proof.
  intros Hne Hplain Hl Hr. unfold cli.list_arg.
  rewrite strip_decorated by (done || by apply join_no_bracket).
  apply split_join; [done |].
  eapply Forall_impl; [exact Hplain |]. intros s Hs.
  eapply all_chars_impl; [| exact Hs]. intros a Ha. by apply plain_char_spec in Ha as [].
Qed.

Lemma pretty_N_char_plain x : plain_char (pretty_N_char x) = true.
Proof. unfold pretty_N_char. by repeat case_match. Qed.

Lemma pretty_N_go_plain x s : plain s -> plain (pretty_N_go x s).
Proof.
  revert s. induction (N.lt_wf_0 x) as [x _ IH]; intros s Hs.
  assert (x = 0 \/ 0 < x)%N as [-> | Hx] by lia.
  - by rewrite pretty_N_go_0.
  - rewrite pretty_N_go_step by done. apply IH; [by apply N.div_lt |].
    unfold plain. simpl. by rewrite pretty_N_char_plain.
Qed.

Lemma pretty_N_plain (x : N) : plain (pretty x).
Proof.
  unfold pretty, pretty_N. case_decide; [done |]. by apply pretty_N_go_plain.
Qed.

Lemma pretty_Z_plain (z : Z) : plain (pretty z).
Proof.
  destruct z as [| p | p]; [done | apply pretty_N_plain |].
  unfold pretty, pretty_Z, plain. rewrite all_chars_app. apply andb_true_iff.
  split; [done | apply pretty_N_plain].
Qed.

Lemma list_arg_one (s : string) : plain s -> cli.list_arg ("[" +:+ s +:+ "]") = [s].
Proof.
  intros Hs. unfold cli.list_arg.
  rewrite strip_decorated; [| | done | done].
  - apply split_no_sep. eapply all_chars_impl; [| exact Hs].
    intros a Ha. by apply plain_char_spec in Ha as [].
  - eapply all_chars_impl; [| exact Hs]. intros a Ha. by apply plain_char_spec in Ha as [].
Qed.

Section Driver.

Variable py_int : string -> option Z.
Variable py_float : string -> option Q.
Variable str_float : Q -> string.

Lemma driver_options (length : Z) :
  getopt.getopt (driver.argv length) cli.shortopts cli.longopts
  = inr ([ ("--output_dir", "instance"); ("--num_instances", "1");
           ("--min_weights", "[-25]"); ("--max_weights", "[25]");
           ("--gene_lengths", "[" +:+ pretty length +:+ "]");
           ("--no_zero", ""); ("--discrete", "") ], []).
Proof.
  unfold driver.argv, driver.cmd. generalize (pretty length). intros s. reflexivity.
Qed.

Lemma driver_arguments (length : Z) :
  py_int "1" = Some 1%Z -> py_float "-25" = Some (-25)%Q -> py_float "25" = Some 25%Q ->
  py_int (pretty length) = Some length ->
  cli.set_options py_int py_float
    [ ("--output_dir", "instance"); ("--num_instances", "1");
      ("--min_weights", "[-25]"); ("--max_weights", "[25]");
      ("--gene_lengths", "[" +:+ pretty length +:+ "]");
      ("--no_zero", ""); ("--discrete", "") ] cli.defaults
  = inr (cli.Args 1 [-25]%Q [25]%Q [length] "instance" true 1 true None).
Proof.
  intros H1 Hmin Hmax Hlen.
  assert (cli.list_arg "[-25]" = ["-25"]) as Ha by reflexivity.
  assert (cli.list_arg "[25]" = ["25"]) as Hb by reflexivity.
  pose proof (list_arg_one (pretty length) (pretty_Z_plain length)) as Hl.
  revert Hl Hlen. generalize ("[" +:+ pretty length +:+ "]"). generalize (pretty length).
  intros s val Hl Hlen.
  cbn [cli.set_options].
  change (cli.set_option py_int py_float cli.defaults "--output_dir" "instance")
    with (@inr exn _ (cli.Args 1 [-10]%Q [10]%Q [1000]%Z "instance" true 1 false None)).
  cbv iota.
  set (a1 := cli.Args 1 [-10]%Q [10]%Q [1000]%Z "instance" true 1 false None).
  assert (cli.set_option py_int py_float a1 "--num_instances" "1" = inr a1) as ->.
  { change (cli.set_option py_int py_float a1 "--num_instances" "1")
      with (match cli.convert py_int "1" with
            | inl e => inl e
            | inr n => inr (cli.Args n [-10]%Q [10]%Q [1000]%Z "instance" true 1 false None)
            end).
    unfold cli.convert. by rewrite H1. }
  set (a2 := cli.Args 1 [-25]%Q [10]%Q [1000]%Z "instance" true 1 false None).
  assert (cli.set_option py_int py_float a1 "--min_weights" "[-25]" = inr a2) as ->.
  { change (cli.set_option py_int py_float a1 "--min_weights" "[-25]")
      with (match cli.list_map py_float (cli.list_arg "[-25]") with
            | inl e => inl e
            | inr l => inr (cli.Args 1 l [10]%Q [1000]%Z "instance" true 1 false None)
            end).
    rewrite Ha. unfold cli.list_map. simpl. by rewrite Hmin. }
  set (a3 := cli.Args 1 [-25]%Q [25]%Q [1000]%Z "instance" true 1 false None).
  assert (cli.set_option py_int py_float a2 "--max_weights" "[25]" = inr a3) as ->.
  { change (cli.set_option py_int py_float a2 "--max_weights" "[25]")
      with (match cli.list_map py_float (cli.list_arg "[25]") with
            | inl e => inl e
            | inr l => inr (cli.Args 1 [-25]%Q l [1000]%Z "instance" true 1 false None)
            end).
    rewrite Hb. unfold cli.list_map. simpl. by rewrite Hmax. }
  set (a4 := cli.Args 1 [-25]%Q [25]%Q [length] "instance" true 1 false None).
  assert (cli.set_option py_int py_float a3 "--gene_lengths" val = inr a4) as ->.
  { change (cli.set_option py_int py_float a3 "--gene_lengths" val)
      with (match cli.list_map py_int (cli.list_arg val) with
            | inl e => inl e
            | inr l => inr (cli.Args 1 [-25]%Q [25]%Q l "instance" true 1 false None)
            end).
    rewrite Hl. unfold cli.list_map. simpl. by rewrite Hlen. }
  reflexivity.
Qed.

(** X17: the command that the driver builds for a length is understood by
    [main]: it runs the generator in the directory [instance] for one
    instance of that length with integer weights of [[-25, 25]], without
    zeros, in the per-instance format.  In a directory that holds the
    instance files numbered below [k] the call adds at most the file
    numbered [k], and adds it when it returns. *)
Theorem X17_driver_command fuel (length : Z) w k :
  py_int "1" = Some 1%Z -> py_float "-25" = Some (-25)%Q -> py_float "25" = Some 25%Q ->
  py_int (pretty length) = Some length ->
  numbered "instance" (w_fs w) k -> k + 1 <= fuel ->
  let r := cli.main py_int py_float str_float fuel (driver.argv length) w in
  let g := generate_instances str_float fuel "instance" 1 [-25]%Q [25]%Q [length]
             true 1 true None w in
  r = (inr g.1, g.2) /\
  exists k', numbered "instance" (w_fs r.2) k' /\ k <= k' <= k + 1 /\
    (r.1 = inr (Ret tt) -> k' = k + 1).
Proof.
  intros H1 Hmin Hmax Hlen Hnum Hfuel r g.
  assert (r = (inr g.1, g.2)) as Hr.
  { unfold r, cli.main. rewrite driver_options, driver_arguments by done.
    unfold cli.generate. simpl. fold g. by destruct g. }
  split; [done |]. rewrite Hr. simpl.
  destruct (generate_instances_numbered_from str_float fuel "instance" 1 [-25]%Q [25]%Q
              [length] true 1 true None w k Hnum ltac:(by left) ltac:(simpl; lia))
    as (k' & Hk' & Hle & Hret).
  exists k'. split; [done |]. split; [simpl in Hle; lia |].
  intros [= Hg]. specialize (Hret Hg). simpl in Hret. lia.
Qed.

End Driver.

(** X14 at [-n 2 -d -z]. *)
Lemma X14_witness :
  cli.main decimal decimal_float fraction_text 2 (["-n"; "2"] ++ "-d" :: ["-z"]) c7_world
  = cli.main decimal decimal_float fraction_text 2 (["-n"; "2"] ++ ["-z"]) c7_world.
Proof.
  apply (X14_discrete_flags_change_nothing decimal decimal_float fraction_text 2
           ["-n"; "2"] "-d" ["-z"] [("-n", "2")] c7_world).
  - reflexivity.
  - left.
Defined.

(** X15 at [-n 2 out], followed by [-z -f 2]. *)
Lemma X15_witness :
  cli.main decimal decimal_float fraction_text 2 (["-n"; "2"; "out"] ++ ["-z"; "-f"; "2"]) c7_world
  = cli.main decimal decimal_float fraction_text 2 ["-n"; "2"; "out"] c7_world.
Proof.
  apply (X15_arguments_after_positional_ignored decimal decimal_float fraction_text 2
           ["-n"; "2"; "out"] [("-n", "2")] ["out"] ["-z"; "-f"; "2"] c7_world).
  - reflexivity.
  - discriminate.
Defined.

(** X16 at three lengths with doubled brackets on the left. *)
Lemma X16_witness :
  cli.list_arg ("[[" +:+ str.join "," ["500"; "1000"; "1500"] +:+ "]")
  = ["500"; "1000"; "1500"].
Proof.
  apply (X16_list_argument_syntax ["500"; "1000"; "1500"] "[[" "]").
  - discriminate.
  - repeat constructor.
  - reflexivity.
  - reflexivity.
Defined.

(** X17 at the length of the driver and the draws of [x12_world], in the
    directory of the driver with one instance file. *)
Lemma X17_witness :
  let w := World (w_rng x12_world) (<[instance_path "instance" 0 := "Max Fitness,0"]> ∅) [] in
  let r := cli.main decimal decimal_float fraction_text 4 (driver.argv 3) w in
  let g := generate_instances fraction_text 4 "instance" 1 [-25]%Q [25]%Q [3]%Z
             true 1 true None w in
  r = (inr g.1, g.2) /\
  exists k', numbered "instance" (w_fs r.2) k' /\ 1 <= k' <= 1 + 1 /\
    (r.1 = inr (Ret tt) -> k' = 1 + 1).
Proof.
  apply (X17_driver_command decimal decimal_float fraction_text 4 3
           (World (w_rng x12_world) (<[instance_path "instance" 0 := "Max Fitness,0"]> ∅) [])
           1).
  - reflexivity.
  - reflexivity.
  - reflexivity.
  - reflexivity.
  - apply (numbered_insert "instance" ∅ 0). intros i. rewrite lookup_empty. split; [| lia].
    by intros [? ?].
  - lia.
Defined.

(* ===================================================================== *)
(** * Further properties: the files of a complete run *)
(* ===================================================================== *)


Section RunFiles.

Variable str_float : Q -> string.






End RunFiles.



(* ===================================================================== *)
(** * Further properties: when the ratio-constrained sampler returns *)
(* ===================================================================== *)







